(** * The chat server ([chat_server.py]): registry, handler and router

    A shallow embedding of class [ChatServer].  The server state ([self])
    is an explicit [world]; every method is a function in a small monad
    whose outcomes are: normal return, a Python exception leaving the
    call, or the calling thread blocked for ever on [self.lock].

    Modelling conventions.
    - A [str] is a [string]; its characters are read as code points
      below 256 and [isspace] is Python's [str.isspace] on that range.
    - A [dict] is an association list in insertion order without
      duplicate keys (Python dicts iterate in insertion order).
    - A socket is a number.  [sock.send] either succeeds or raises;
      it raises on a socket closed by the server, and otherwise when the
      network says so: the network is a section variable [send_fails]
      that sees the history, the socket and the payload, so every result
      holds for any pattern of transport failures.
    - Everything observable is appended to a trace: lock acquire and
      release, each send attempt with its success, each close.
    - The [print] calls are not modelled.  [recv(1024).decode('utf-8')]
      is one element of the handler's input script: the decoded text, or
      an exception (reset, read error, undecodable bytes).  A script
      that is exhausted stands for the peer closing the stream. *)

From Stdlib Require Import String Ascii List Bool Arith Lia.
Import ListNotations.
Open Scope list_scope.
Open Scope string_scope.

(** ** Python [str] methods used by the server *)
Module PyStr.

Definition isspace (c : ascii) : bool :=
  let n := nat_of_ascii c in
  (((9 <=? n) && (n <=? 13)) || ((28 <=? n) && (n <=? 32))
   || (n =? 133) || (n =? 160))%nat.

Fixpoint lstrip (s : string) : string :=
  match s with
  | EmptyString => EmptyString
  | String c r => if isspace c then lstrip r else s
  end.

Fixpoint rstrip (s : string) : string :=
  match s with
  | EmptyString => EmptyString
  | String c r =>
      match rstrip r with
      | EmptyString => if isspace c then EmptyString else String c EmptyString
      | r' => String c r'
      end
  end.

(** [s.strip()] *)
Definition strip (s : string) : string := rstrip (lstrip s).

(** [s.startswith(p)] *)
Definition startswith (p s : string) : bool := String.prefix p s.

(** The text before and after the first [sep], when there is one. *)
Fixpoint cut (sep : ascii) (s : string) : option (string * string) :=
  match s with
  | EmptyString => None
  | String c r =>
      if Ascii.eqb c sep then Some (EmptyString, r)
      else match cut sep r with
           | Some (a, b) => Some (String c a, b)
           | None => None
           end
  end.

(** [s.split(sep, maxsplit)] for a one-character separator. *)
Fixpoint split (sep : ascii) (maxsplit : nat) (s : string) : list string :=
  match maxsplit with
  | 0 => [s]
  | S n =>
      match cut sep s with
      | None => [s]
      | Some (a, b) => a :: split sep n b
      end
  end.

(** [sep.join(l)] *)
Definition join (sep : string) (l : list string) : string := String.concat sep l.

(** [sep not in s] for a one-character [sep]. *)
Fixpoint lacks (sep : ascii) (s : string) : bool :=
  match s with
  | EmptyString => true
  | String c r => negb (Ascii.eqb c sep) && lacks sep r
  end.

(** Every character is white space. *)
Fixpoint blank (s : string) : bool :=
  match s with
  | EmptyString => true
  | String c r => isspace c && blank r
  end.

End PyStr.

(** ** Python [dict] with [str] keys, in insertion order *)
Module Dict.
Section WithValue.
Context {V : Type}.

(** [d.get(k)] *)
Fixpoint get (k : string) (d : list (string * V)) : option V :=
  match d with
  | [] => None
  | (k', v) :: r => if String.eqb k' k then Some v else get k r
  end.

(** [k in d] *)
Definition mem (k : string) (d : list (string * V)) : bool :=
  match get k d with Some _ => true | None => false end.

(** [d[k] = v]: a present key keeps its place, a new one goes last. *)
Fixpoint set (k : string) (v : V) (d : list (string * V)) : list (string * V) :=
  match d with
  | [] => [(k, v)]
  | (k', v') :: r =>
      if String.eqb k' k then (k', v) :: r else (k', v') :: set k v r
  end.

(** [del d[k]] for a present key (absent keys are guarded by the callers). *)
Fixpoint del (k : string) (d : list (string * V)) : list (string * V) :=
  match d with
  | [] => []
  | (k', v) :: r => if String.eqb k' k then r else (k', v) :: del k r
  end.

Definition keys (d : list (string * V)) : list string := map fst d.
Definition values (d : list (string * V)) : list V := map snd d.

End WithValue.
End Dict.

Import PyStr.

(** ** Server state and observable events *)

Definition sock := nat.

Inductive event : Type :=
| EvAcquire                                      (* [self.lock] taken *)
| EvRelease                                      (* [self.lock] released *)
| EvSend (s : sock) (data : string) (ok : bool)  (* [s.send(data)]; [ok = false]: it raised *)
| EvClose (s : sock).                            (* [s.close()] *)

Record world : Type := mkWorld {
  clients : list (string * sock);         (* [self.clients] *)
  client_threads : list (string * nat);   (* [self.client_threads]; a thread is named by its socket *)
  lock : bool;                            (* [self.lock] is held *)
  server_socket : option sock;            (* [self.server_socket] *)
  closed : list sock;                     (* sockets the server has closed *)
  trace : list event
}.

Definition set_clients (f : list (string * sock) -> list (string * sock)) (w : world) : world :=
  mkWorld (f (clients w)) (client_threads w) (lock w) (server_socket w) (closed w) (trace w).
Definition set_client_threads (f : list (string * nat) -> list (string * nat)) (w : world) : world :=
  mkWorld (clients w) (f (client_threads w)) (lock w) (server_socket w) (closed w) (trace w).
Definition set_lock (b : bool) (w : world) : world :=
  mkWorld (clients w) (client_threads w) b (server_socket w) (closed w) (trace w).
Definition set_closed (s : sock) (w : world) : world :=
  mkWorld (clients w) (client_threads w) (lock w) (server_socket w) (s :: closed w) (trace w).
Definition log (e : event) (w : world) : world :=
  mkWorld (clients w) (client_threads w) (lock w) (server_socket w) (closed w) (trace w ++ [e]).

(** The state of a server object after [__init__]. *)
Definition init : world := mkWorld [] [] false None [] [].

(** ** Outcomes and the monad of server code *)

Inductive outcome (A : Type) : Type :=
| Normal (a : A) (w : world)    (* the call returned [a] *)
| Raised (w : world)            (* an exception left the call *)
| Blocked (w : world).          (* the thread waits for ever on [self.lock] *)
Arguments Normal {A} a w.
Arguments Raised {A} w.
Arguments Blocked {A} w.

Definition M (A : Type) : Type := world -> outcome A.

Definition ret {A} (a : A) : M A := fun w => Normal a w.

Definition bind {A B} (c : M A) (k : A -> M B) : M B :=
  fun w =>
    match c w with
    | Normal a w' => k a w'
    | Raised w' => Raised w'
    | Blocked w' => Blocked w'
    end.

Declare Scope py_scope.
Delimit Scope py_scope with py.
Notation "x <- c ;; k" := (bind c (fun x => k))
  (at level 61, c at next level, right associativity) : py_scope.
Notation "c ;; k" := (bind c (fun _ => k))
  (at level 61, right associativity) : py_scope.
Open Scope py_scope.

Definition gets {A} (f : world -> A) : M A := fun w => Normal (f w) w.
Definition modify (f : world -> world) : M unit := fun w => Normal tt (f w).

(** [try: body / except: handler] (a bare [except] and [except Exception]
    catch the same exceptions here). *)
Definition try_except {A} (body handler : M A) : M A :=
  fun w =>
    match body w with
    | Raised w' => handler w'
    | o => o
    end.

(** [try: body / except: pass] *)
Definition try_pass (body : M unit) : M unit := try_except body (ret tt).

(** [with self.lock: body].  [threading.Lock] is not reentrant: taking it
    while it is held never returns.  It is released on return and on an
    exception alike. *)
Definition with_lock {A} (body : M A) : M A :=
  fun w =>
    if lock w then Blocked w
    else
      match body (log EvAcquire (set_lock true w)) with
      | Normal a w' => Normal a (log EvRelease (set_lock false w'))
      | Raised w' => Raised (log EvRelease (set_lock false w'))
      | Blocked w' => Blocked w'
      end.

(** [for x in l: body(x)] *)
Fixpoint for_each {A} (l : list A) (body : A -> M unit) : M unit :=
  match l with
  | [] => ret tt
  | x :: r => body x ;; for_each r body
  end.

Definition outcome_world {A} (o : outcome A) : world :=
  match o with Normal _ w | Raised w | Blocked w => w end.

(** ** Sockets *)

(** One [recv(1024).decode('utf-8')] of the handler. *)
Inductive recv_result : Type :=
| Data (text : string)   (* the decoded text; [""] is end of stream *)
| RecvError.             (* [recv] or [decode] raised *)

Section Server.

(** The transport: [send_fails history s data] tells that this write on
    the open socket [s] raises. *)
Variable send_fails : list event -> sock -> string -> bool.

Definition is_closed (s : sock) (w : world) : bool := existsb (Nat.eqb s) (closed w).

(** Would [s.send(data)] succeed now? *)
Definition send_ok (s : sock) (data : string) (w : world) : bool :=
  negb (is_closed s w || send_fails (trace w) s data).

(** [s.send(data.encode('utf-8'))] *)
Definition sock_send (s : sock) (data : string) : M unit :=
  fun w =>
    if send_ok s data w then Normal tt (log (EvSend s data true) w)
    else Raised (log (EvSend s data false) w).

(** [s.close()] *)
Definition sock_close (s : sock) : M unit :=
  fun w => Normal tt (log (EvClose s) (set_closed s w)).

(** ** The router *)

(** [broadcast_status(self, status_message)] *)
Definition broadcast_status (status_message : string) : M unit :=
  with_lock (
    cs <- gets clients ;;
    for_each cs (fun '(name, sk) =>
      try_pass (sock_send sk ("STATUS:" ++ status_message)))).

(** [broadcast_message(self, sender_name, message)] *)
Definition broadcast_message (sender_name message : string) : M unit :=
  with_lock (
    let formatted_message := "MESSAGE:" ++ sender_name ++ ":" ++ message in
    cs <- gets clients ;;
    for_each cs (fun '(name, sk) =>
      if negb (String.eqb name sender_name)
      then try_pass (sock_send sk formatted_message)
      else ret tt)).

(** [send_message(self, sender_name, target_name, message)] *)
Definition send_message (sender_name target_name message : string) : M unit :=
  with_lock (
    cs <- gets clients ;;
    match Dict.get target_name cs with
    | None =>
        match Dict.get sender_name cs with
        | Some sender_socket =>
            try_pass (sock_send sender_socket
                        ("ERROR:Client '" ++ target_name ++ "' not found"))
        | None => ret tt
        end
    | Some target_socket =>
        try_except
          (let formatted_message := "MESSAGE:" ++ sender_name ++ ":" ++ message in
           sock_send target_socket formatted_message ;;
           match Dict.get sender_name cs with
           | Some sender_socket => sock_send sender_socket "MESSAGE_SENT"
           | None => ret tt
           end)
          (match Dict.get sender_name cs with
           | Some sender_socket =>
               try_pass (sock_send sender_socket "ERROR:Failed to send message")
           | None => ret tt
           end)
    end).

(** [send_client_list(self, client_name)] *)
Definition send_client_list (client_name : string) : M unit :=
  with_lock (
    cs <- gets clients ;;
    match Dict.get client_name cs with
    | None => ret tt
    | Some client_socket =>
        try_pass (
          let available_clients :=
            filter (fun name => negb (String.eqb name client_name)) (Dict.keys cs) in
          let client_list :=
            match available_clients with
            | [] => "No other clients"
            | _ => join "," available_clients
            end in
          sock_send client_socket ("CLIENT_LIST:" ++ client_list))
    end).

(** ** Registry removal and shutdown *)

(** [remove_client(self, client_name)].  The leave notice is sent by
    [broadcast_status], called inside the [with self.lock] block. *)
Definition remove_client (client_name : string) : M unit :=
  with_lock (
    cs <- gets clients ;;
    match Dict.get client_name cs with
    | Some client_socket =>
        try_pass (sock_close client_socket) ;;
        modify (set_clients (Dict.del client_name)) ;;
        modify (set_client_threads (Dict.del client_name)) ;;
        broadcast_status (client_name ++ " left the server")
    | None => ret tt
    end).

(** [stop(self)] *)
Definition stop : M unit :=
  with_lock (
    cs <- gets clients ;;
    for_each (Dict.values cs) (fun sk => try_pass (sock_close sk)) ;;
    modify (set_clients (fun _ => [])) ;;
    modify (set_client_threads (fun _ => []))) ;;
  listener <- gets server_socket ;;
  match listener with
  | Some l => try_pass (sock_close l)
  | None => ret tt
  end.

(** ** The connection handler *)

(** One turn of the [while True] loop of [handle_client], after a
    non-empty [message] was received. *)
Definition dispatch (client_socket : sock) (client_name message : string) : M unit :=
  if startswith "CHAT:" message then
    match split ":" 2 message with
    | [_; target; msg_content] =>
        let target_name := strip target in
        send_message client_name target_name msg_content
    | _ => sock_send client_socket "ERROR:Invalid CHAT format"
    end
  else if String.eqb message "LIST" then
    send_client_list client_name
  else if startswith "BROADCAST:" message then
    let message_content := nth 1 (split ":" 1 message) "" in
    broadcast_message client_name message_content
  else
    sock_send client_socket "ERROR:Unknown command".

(** The [while True] loop over what the peer sends. *)
Fixpoint receive_loop (client_socket : sock) (client_name : string)
    (input : list recv_result) : M unit :=
  match input with
  | [] => ret tt
  | RecvError :: _ => Raised
  | Data message :: rest =>
      if String.eqb message "" then ret tt
      else dispatch client_socket client_name message ;;
           receive_loop client_socket client_name rest
  end.

(** The registration step, once [client_name] has been read from the
    frame: the locked check and insert, the reply and the join notice.
    [false] is the [return] of the name-taken branch. *)
Definition register (client_socket : sock) (client_name : string) : M bool :=
  fresh <- with_lock (
    cs <- gets clients ;;
    if Dict.mem client_name cs then
      sock_send client_socket "ERROR:Name already taken" ;;
      sock_close client_socket ;;
      ret false
    else
      modify (set_clients (Dict.set client_name client_socket)) ;;
      modify (set_client_threads (Dict.set client_name client_socket)) ;;
      ret true) ;;
  if fresh then
    sock_send client_socket "REGISTERED" ;;
    broadcast_status (client_name ++ " joined the server") ;;
    ret true
  else ret false.

(** The [try] block of [handle_client]: the value of the local
    [client_name] when the block is left, and how it is left. *)
Definition handle_client_try (client_socket : sock) (input : list recv_result)
    (w : world) : option string * outcome unit :=
  match input with
  | [] => (None, Normal tt w)
  | RecvError :: _ => (None, Raised w)
  | Data name_message :: rest =>
      if String.eqb name_message "" then (None, Normal tt w)
      else if startswith "REGISTER:" name_message then
        let client_name := strip (nth 1 (split ":" 1 name_message) "") in
        (Some client_name,
         (registered <- register client_socket client_name ;;
          if registered then receive_loop client_socket client_name rest
          else ret tt) w)
      else
        (None,
         (sock_send client_socket "ERROR:Must register first" ;;
          sock_close client_socket) w)
  end.

(** [handle_client(self, client_socket, address)]: both [except] clauses
    only print; the [finally] clause runs [remove_client] when
    [client_name] is truthy (neither [None] nor the empty string). *)
Definition handle_client (client_socket : sock) (input : list recv_result) : M unit :=
  fun w =>
    let '(client_name, o) := handle_client_try client_socket input w in
    let cleanup : M unit :=
      match client_name with
      | Some name => if String.eqb name "" then ret tt else remove_client name
      | None => ret tt
      end in
    match o with
    | Normal _ w' => cleanup w'
    | Raised w' => cleanup w'
    | Blocked w' => Blocked w'
    end.

End Server.

(** A transport on which no write ever fails. *)
Definition reliable_net : list event -> sock -> string -> bool := fun _ _ _ => false.

(** ** Reading a trace *)

(** The frames written successfully to [s], oldest first: what the peer
    of [s] receives. *)
Fixpoint delivered (s : sock) (tr : list event) : list string :=
  match tr with
  | [] => []
  | EvSend s' data true :: r =>
      if Nat.eqb s' s then data :: delivered s r else delivered s r
  | _ :: r => delivered s r
  end.

(** The send attempts of a trace, whatever their success. *)
Fixpoint attempts (tr : list event) : list (sock * string) :=
  match tr with
  | [] => []
  | EvSend s data _ :: r => (s, data) :: attempts r
  | _ :: r => attempts r
  end.

(** The sockets closed in a trace, in order. *)
Fixpoint closes (tr : list event) : list sock :=
  match tr with
  | [] => []
  | EvClose s :: r => s :: closes r
  | _ :: r => closes r
  end.

Definition sends_only (evs : list event) : Prop :=
  forall e, In e evs -> exists s data ok, e = EvSend s data ok.

(** [w'] is [w] with the lock set to [l] and [evs] appended to the trace. *)
Definition extends (w : world) (l : bool) (evs : list event) (w' : world) : Prop :=
  w' = mkWorld (clients w) (client_threads w) l (server_socket w) (closed w)
               (trace w ++ evs).

(** An outcome other than blocking. *)
Definition terminates {A} (o : outcome A) : Prop :=
  match o with Blocked _ => False | _ => True end.

(** ** Sample states and transports

    Socket 0 listens; the clients are on sockets 1, 2 and 3. *)

Definition registry_of (cs : list (string * sock)) : world :=
  mkWorld cs cs false (Some 0) [] [].

Definition w_alice : world := registry_of [("alice", 1)].
Definition w_bob : world := registry_of [("bob", 2)].
Definition w_alice_bob : world := registry_of [("alice", 1); ("bob", 2)].
Definition w_three : world := registry_of [("alice", 1); ("bob", 2); ("carol", 3)].

(** A transport on which every write to [bad] fails. *)
Definition dead_peer (bad : sock) : list event -> sock -> string -> bool :=
  fun _ s _ => Nat.eqb s bad.

(** ** Reading a whole run *)

(** Every event that [c] appends to the trace satisfies [P], however
    [c] ends. *)
Definition emits {A} (P : event -> Prop) (c : M A) : Prop :=
  forall w, exists evs,
    trace (outcome_world (c w)) = (trace w ++ evs)%list /\ Forall P evs.

(** The frames of the server-to-client catalogue: the two bare keywords,
    and the four prefixed kinds, a [MESSAGE] having its two separators. *)
Definition server_frame (data : string) : bool :=
  String.eqb data "REGISTERED"
  || String.eqb data "MESSAGE_SENT"
  || startswith "ERROR:" data
  || startswith "STATUS:" data
  || startswith "CLIENT_LIST:" data
  || (startswith "MESSAGE:" data && Nat.eqb (length (split ":" 2 data)) 3).

Definition sends_catalogued (e : event) : Prop :=
  match e with
  | EvSend _ data _ => server_frame data = true
  | _ => True
  end.

(** The name a handler binds to [client_name]: the stripped name part of
    a first frame that starts with [REGISTER:], if that is what it reads. *)
Definition requested_name (input : list recv_result) : option string :=
  match input with
  | Data name_message :: _ =>
      if startswith "REGISTER:" name_message
      then Some (strip (nth 1 (split ":" 1 name_message) ""))
      else None
  | _ => None
  end.

(** The two tables hold the same names in the same order. *)
Definition tables_in_step (w : world) : Prop :=
  Dict.keys (client_threads w) = Dict.keys (clients w).

(** ** The console client ([chat_client.py])

    What the client writes to its socket and to its terminal is kept in
    order in [out].  [Print text] is one call [print(text)], [Write text]
    a prompt written without a line end.  A failing [send] raises, and
    the section variable [send_error] gives the text of its exception. *)
Module Console.

Definition nl : string := String (ascii_of_nat 10) EmptyString.

Definition prompt : string := "Your message: ".

(** [c.lower()] on code points below 256. *)
Definition lower_char (c : ascii) : ascii :=
  let n := nat_of_ascii c in
  if (((65 <=? n) && (n <=? 90))
      || ((192 <=? n) && (n <=? 222) && negb (n =? 215)))%nat
  then ascii_of_nat (n + 32)
  else c.

(** [s.lower()] *)
Fixpoint lower (s : string) : string :=
  match s with
  | EmptyString => EmptyString
  | String c r => String (lower_char c) (lower r)
  end.

(** [s[k:]] *)
Fixpoint drop (k : nat) (s : string) : string :=
  match k, s with
  | S k', String _ r => drop k' r
  | _, _ => s
  end.

(** [text * k] *)
Fixpoint times (text : string) (k : nat) : string :=
  match k with
  | 0 => EmptyString
  | S k' => text ++ times text k'
  end.

Inductive cevent : Type :=
| Sent (frame : string)         (* [self.client_socket.send(frame)] returned *)
| SendFailed (frame : string)   (* it raised *)
| Print (text : string)         (* [print(text)] *)
| Write (text : string).        (* the prompt of [input], or [sys.stdout.write(text)] *)

Record client : Type := mkClient {
  running : bool;          (* [self.running] *)
  out : list cevent
}.

Definition say (e : cevent) (c : client) : client :=
  mkClient (running c) (out c ++ [e]).

Inductive flow : Type := Continue | Break.

Section Client.

Variable send_error : list cevent -> string -> option string.

(** [try: self.client_socket.send(frame) / except Exception as e:
    print(f"<complaint>{e}")] *)
Definition send_or_complain (frame complaint : string) (c : client) : client :=
  match send_error (out c) frame with
  | None => say (Sent frame) c
  | Some e => say (Print (complaint ++ e)) (say (SendFailed frame) c)
  end.

(** [broadcast_message(self, message)] *)
Definition broadcast_message (message : string) (c : client) : client :=
  if negb (running c) then say (Print "Not connected to server") c
  else send_or_complain ("BROADCAST:" ++ message) "Error sending message: " c.

(** [send_direct_message(self, target_name, message)] *)
Definition send_direct_message (target_name message : string) (c : client) : client :=
  if negb (running c) then say (Print "Not connected to server") c
  else send_or_complain ("CHAT:" ++ target_name ++ ":" ++ message)
                        "Error sending direct message: " c.

(** [list_clients(self)] *)
Definition list_clients (c : client) : client :=
  if negb (running c) then say (Print "Not connected to server") c
  else send_or_complain "LIST" "Error listing clients: " c.

(** [print_help(self)] *)
Definition print_help (c : client) : client :=
  fold_left (fun c text => say (Print text) c)
    [ nl ++ times "=" 50;
      "Simple Chat - Broadcast or direct messages";
      nl ++ "Available Commands:";
      "  <message>               - Send to everyone (broadcast)";
      "  send <name> <message>   - Send direct message to a client";
      "  list                    - List all available clients";
      "  help                    - Show this help message";
      "  quit                    - Disconnect and exit";
      times "=" 50 ] c.

(** [handle_server_message(self, message)] *)
Definition handle_server_message (message : string) (c : client) : client :=
  if startswith "MESSAGE:" message then
    match split ":" 2 message with
    | [_; sender_name; message_content] =>
        say (Write prompt)
          (say (Print (nl ++ "[" ++ sender_name ++ "]: " ++ message_content)) c)
    | _ => c
    end
  else if startswith "STATUS:" message then
    let status := nth 1 (split ":" 1 message) "" in
    say (Write prompt) (say (Print (nl ++ "[Server]: " ++ status)) c)
  else if startswith "CLIENT_LIST:" message then
    let client_list := nth 1 (split ":" 1 message) "" in
    say (Write prompt) (say (Print (nl ++ "Available clients: " ++ client_list)) c)
  else if startswith "ERROR:" message then
    let error := nth 1 (split ":" 1 message) "" in
    say (Write prompt) (say (Print (nl ++ "[Error]: " ++ error)) c)
  else c.

(** One turn of the [while self.running] loop of [start], [line] being
    what [input] returns. *)
Definition turn (line : string) (c : client) : flow * client :=
  let c := say (Write prompt) c in
  let user_input := strip line in
  if String.eqb user_input "" then (Continue, c)
  else if String.eqb (lower user_input) "quit" then (Break, c)
  else if String.eqb (lower user_input) "help" then (Continue, print_help c)
  else if String.eqb (lower user_input) "list" then (Continue, list_clients c)
  else if startswith "send " (lower user_input) then
    match split " " 1 (strip (drop 5 user_input)) with
    | [target; msg] => (Continue, send_direct_message target msg c)
    | _ => (Continue, say (Print "Usage: send <client_name> <message>") c)
    end
  else (Continue, broadcast_message user_input c).

End Client.

(** A connected client that has written nothing yet, and a transport
    that takes every frame. *)
Definition fresh_client : client := mkClient true [].
Definition no_send_error : list cevent -> string -> option string :=
  fun _ _ => None.

End Console.

(** ** Exact traces of best-effort writes *)

(** The events of attempting the writes [l] one after the other from the
    history [tr] on, the sockets of [shut] being closed: each write
    succeeds exactly when its socket is open and the transport takes it
    at that moment, and a failure stops nothing. *)
Fixpoint writes (net : list event -> sock -> string -> bool) (shut : list sock)
    (tr : list event) (l : list (sock * string)) : list event :=
  match l with
  | [] => []
  | (s, data) :: r =>
      let e := EvSend s data (negb (existsb (Nat.eqb s) shut || net tr s data)) in
      e :: writes net shut (tr ++ [e]) r
  end.

(** Every write to [s] succeeds: [s] is open in [w] and the transport
    never fails a write to it. *)
Definition takes_writes (net : list event -> sock -> string -> bool) (s : sock)
    (w : world) : Prop :=
  is_closed s w = false /\ forall tr data, net tr s data = false.

(** The names, in order, with a comma between each two. *)
Fixpoint comma_separated (names : list string) : string :=
  match names with
  | [] => ""
  | [a] => a
  | a :: r => a ++ "," ++ comma_separated r
  end.

(** The number of bytes of [s.encode('utf-8')], for code points below
    256: one byte below 128, two from there on. *)
Fixpoint utf8_length (s : string) : nat :=
  match s with
  | EmptyString => 0
  | String c r => (if Nat.ltb (nat_of_ascii c) 128 then 1 else 2) + utf8_length r
  end.

(** The frame fits one [recv(1024)] of its reader. *)
Definition fits_one_read (frame : string) : Prop := utf8_length frame <= 1024.

(** * Lemmas *)

(** ** Strings *)

Lemma cut_lacks (sep : ascii) (a b : string) :
  lacks sep a = true -> cut sep (a ++ String sep b) = Some (a, b).
Proof.
  induction a as [|c a IH]; simpl; intros H.
  - now rewrite Ascii.eqb_refl.
  - apply andb_true_iff in H as [Hc Ha].
    apply negb_true_iff in Hc. rewrite Hc, (IH Ha). reflexivity.
Qed.

Lemma cut_none (sep : ascii) (a : string) :
  lacks sep a = true -> cut sep a = None.
Proof.
  induction a as [|c a IH]; simpl; intros H; [reflexivity|].
  apply andb_true_iff in H as [Hc Ha].
  apply negb_true_iff in Hc. now rewrite Hc, (IH Ha).
Qed.

Lemma startswith_app (p s : string) : startswith p (p ++ s) = true.
Proof.
  unfold startswith. induction p as [|c p IH]; simpl.
  - now destruct s.
  - destruct (ascii_dec c c); [exact IH|congruence].
Qed.

Lemma lstrip_blank (s : string) : blank s = true -> lstrip s = "".
Proof.
  induction s as [|c s IH]; simpl; intros H; [reflexivity|].
  apply andb_true_iff in H as [Hc Hs]. rewrite Hc. auto.
Qed.

Lemma strip_blank (s : string) : blank s = true -> strip s = "".
Proof. intros H. unfold strip. now rewrite (lstrip_blank s H). Qed.

Lemma rstrip_idem (s : string) : rstrip (rstrip s) = rstrip s.
Proof.
  induction s as [|c s IH]; simpl; [reflexivity|].
  destruct (rstrip s) as [|c' r'] eqn:E.
  - destruct (isspace c) eqn:Hc; simpl; [reflexivity|]. now rewrite Hc.
  - simpl in *. destruct (rstrip r') as [|c'' r''] eqn:E'.
    + destruct (isspace c'); [discriminate|]. now inversion IH; subst.
    + now rewrite IH.
Qed.

(** [rstrip] keeps the first character of what it leaves. *)
Lemma rstrip_head (s : string) (c : ascii) (r : string) :
  rstrip s = String c r -> exists t, s = String c t.
Proof.
  destruct s as [|c0 s]; simpl; [discriminate|].
  destruct (rstrip s); [destruct (isspace c0)|]; intros H;
    inversion H; subst; eauto.
Qed.

Lemma lstrip_head (s : string) (c : ascii) (r : string) :
  lstrip s = String c r -> isspace c = false.
Proof.
  induction s as [|c0 s IH]; simpl; [discriminate|].
  destruct (isspace c0) eqn:E; [exact IH|].
  intros H. now inversion H; subst.
Qed.

(** A stripped name is its own strip: the registry holds such names. *)
Lemma strip_idem (s : string) : strip (strip s) = strip s.
Proof.
  unfold strip.
  destruct (rstrip (lstrip s)) as [|c r] eqn:E; [reflexivity|].
  destruct (rstrip_head _ _ _ E) as [t Ht].
  pose proof (lstrip_head _ _ _ Ht) as Hc.
  assert (Hl : lstrip (String c r) = String c r) by (simpl; now rewrite Hc).
  rewrite Hl, <- E. apply rstrip_idem.
Qed.

(** ** Dictionaries *)

Lemma set_fresh {V} (k : string) (v : V) (d : list (string * V)) :
  Dict.get k d = None -> Dict.set k v d = (d ++ [(k, v)])%list.
Proof.
  induction d as [|[k' v'] d IH]; simpl; [reflexivity|].
  destruct (String.eqb k' k); [discriminate|].
  intros H. now rewrite (IH H).
Qed.

Lemma get_app_fresh {V} (k : string) (v : V) (d : list (string * V)) :
  Dict.get k d = None -> Dict.get k (d ++ [(k, v)]) = Some v.
Proof.
  induction d as [|[k' v'] d IH]; simpl.
  - now rewrite String.eqb_refl.
  - destruct (String.eqb k' k); [discriminate|exact IH].
Qed.

Lemma del_app_fresh {V} (k : string) (v : V) (d : list (string * V)) :
  Dict.get k d = None -> Dict.del k (d ++ [(k, v)]) = d.
Proof.
  induction d as [|[k' v'] d IH]; simpl.
  - now rewrite String.eqb_refl.
  - destruct (String.eqb k' k); [discriminate|].
    intros H. now rewrite (IH H).
Qed.

Lemma get_in {V} (k : string) (v : V) (d : list (string * V)) :
  Dict.get k d = Some v -> In (k, v) d.
Proof.
  induction d as [|[k' v'] d IH]; simpl; [discriminate|].
  destruct (String.eqb_spec k' k) as [->|_].
  - intros H. inversion H. now left.
  - intros H. right. auto.
Qed.

(** Two entries of a registry whose sockets are all different have
    different sockets, or are one entry. *)
Lemma values_injective {V} (d : list (string * V)) (a b : string) (v : V) :
  NoDup (Dict.values d) -> In (a, v) d -> In (b, v) d -> a = b.
Proof.
  unfold Dict.values.
  induction d as [|[k x] d IH]; simpl; [tauto|].
  intros Hnd [Ha|Ha] [Hb|Hb]; inversion Hnd as [|? ? Hx Hd]; subst.
  - congruence.
  - inversion Ha; subst. exfalso. apply Hx.
    change v with (snd (b, v)). now apply in_map.
  - inversion Hb; subst. exfalso. apply Hx.
    change v with (snd (a, v)). now apply in_map.
  - auto.
Qed.

(** ** Traces *)

Lemma delivered_app (s : sock) (a b : list event) :
  delivered s (a ++ b) = (delivered s a ++ delivered s b)%list.
Proof.
  induction a as [|[| |s' d [|]|s'] a IH]; simpl; try assumption.
  - reflexivity.
  - destruct (Nat.eqb s' s); simpl; now rewrite ?IH.
Qed.

(** ** The router under any transport *)

(** Closes goals that equate two worlds built by the state updates. *)
Ltac world_eq :=
  unfold extends, log, set_lock, set_clients, set_client_threads, set_closed in *;
  subst; simpl; rewrite <- ?app_assoc; simpl; reflexivity.

Section Router.

Variable net : list event -> sock -> string -> bool.

Lemma try_send (s : sock) (data : string) (w : world) :
  try_pass (sock_send net s data) w
  = Normal tt (log (EvSend s data (send_ok net s data w)) w).
Proof.
  unfold try_pass, try_except, sock_send.
  destruct (send_ok net s data w); reflexivity.
Qed.

(** A loop of guarded best-effort sends attempts one send per selected
    entry, in registry order, and changes nothing but the trace. *)
Lemma for_each_sends (p : string -> bool) (data : string)
    (l : list (string * sock)) (w : world) :
  exists evs w',
    for_each l (fun '(name, sk) =>
                  if p name then try_pass (sock_send net sk data) else ret tt) w
    = Normal tt w'
    /\ extends w (lock w) evs w'
    /\ attempts evs
       = map (fun '(_, sk) => (sk, data)) (filter (fun '(name, _) => p name) l)
    /\ sends_only evs.
Proof.
  revert w. induction l as [|[name sk] l IH]; intros w.
  - exists [], w. repeat split.
    + unfold extends. destruct w; simpl. now rewrite app_nil_r.
    + intros e [].
  - simpl for_each. unfold bind at 1.
    destruct (p name) eqn:Hp.
    + rewrite try_send.
      destruct (IH (log (EvSend sk data (send_ok net sk data w)) w))
        as (evs & w' & Hrun & Hext & Hatt & Hso).
      exists (EvSend sk data (send_ok net sk data w) :: evs), w'.
      repeat split.
      * exact Hrun.
      * unfold extends in *. rewrite Hext. simpl. now rewrite <- app_assoc.
      * simpl. rewrite Hp. simpl. now rewrite Hatt.
      * intros e [<-|He]; eauto.
    + unfold ret at 1.
      destruct (IH w) as (evs & w' & Hrun & Hext & Hatt & Hso).
      exists evs, w'. repeat split; try assumption.
      simpl. now rewrite Hp.
Qed.

(** [broadcast_status] with the lock free. *)
Lemma broadcast_status_spec (text : string) (w : world) :
  lock w = false ->
  exists evs w',
    broadcast_status net text w = Normal tt w'
    /\ extends w false ([EvAcquire] ++ evs ++ [EvRelease]) w'
    /\ attempts evs = map (fun '(_, sk) => (sk, "STATUS:" ++ text)) (clients w)
    /\ sends_only evs.
Proof.
  intros Hl. unfold broadcast_status, with_lock. rewrite Hl.
  unfold bind at 1, gets. cbn [clients log set_lock].
  destruct (for_each_sends (fun _ => true) ("STATUS:" ++ text) (clients w)
              (log EvAcquire (set_lock true w)))
    as (evs & w1 & Hrun & Hext & Hatt & Hso).
  cbv beta in Hrun. cbn [clients log set_lock] in Hrun.
  exists evs.
  change (fun '(name, sk) =>
            if true then try_pass (sock_send net sk ("STATUS:" ++ text)) else ret tt)
    with (fun '((name, sk) : string * sock) =>
            try_pass (sock_send net sk ("STATUS:" ++ text))) in Hrun.
  rewrite Hrun. eexists. split; [reflexivity|]. repeat split.
  - world_eq.
  - rewrite Hatt. f_equal.
    clear. induction (clients w) as [|[n s] l IH]; simpl; congruence.
  - exact Hso.
Qed.

(** [broadcast_message] with the lock free. *)
Lemma broadcast_message_spec (sender content : string) (w : world) :
  lock w = false ->
  exists evs w',
    broadcast_message net sender content w = Normal tt w'
    /\ extends w false ([EvAcquire] ++ evs ++ [EvRelease]) w'
    /\ attempts evs
       = map (fun '(_, sk) => (sk, "MESSAGE:" ++ sender ++ ":" ++ content))
           (filter (fun '(name, _) => negb (String.eqb name sender)) (clients w))
    /\ sends_only evs.
Proof.
  intros Hl. unfold broadcast_message, with_lock. rewrite Hl.
  unfold bind at 1, gets. cbn [clients log set_lock].
  destruct (for_each_sends (fun name => negb (String.eqb name sender))
              ("MESSAGE:" ++ sender ++ ":" ++ content) (clients w)
              (log EvAcquire (set_lock true w)))
    as (evs & w1 & Hrun & Hext & Hatt & Hso).
  cbn [clients log set_lock] in Hrun.
  exists evs. rewrite Hrun. eexists. split; [reflexivity|]. repeat split.
  - world_eq.
  - exact Hatt.
  - exact Hso.
Qed.

End Router.

(** ** The handler's loop keeps the registry *)

Section Handler.

Variable net : list event -> sock -> string -> bool.

(** Case analysis on every send of a goal, oldest first. *)
Ltac split_sends :=
  repeat match goal with
         | |- context [send_ok net ?s ?d ?w] =>
             let E := fresh "Hsend" in destruct (send_ok net s d w) eqn:E
         end.

Ltac run_locked Hl :=
  unfold with_lock; rewrite Hl;
  unfold bind, gets, try_pass, try_except, sock_send, ret, modify;
  cbn [clients log set_lock].

Lemma send_message_frame (sender target content : string) (w : world) :
  lock w = false ->
  exists evs w',
    send_message net sender target content w = Normal tt w'
    /\ extends w false evs w'.
Proof.
  intros Hl. unfold send_message. run_locked Hl.
  destruct (Dict.get target (clients w)) as [ts|];
    destruct (Dict.get sender (clients w)) as [ss|];
    split_sends; eexists; eexists; (split; [reflexivity|]);
    unfold extends, log, set_lock; simpl; rewrite <- ?app_assoc; simpl;
    f_equal; f_equal.
Qed.

Lemma send_client_list_frame (name : string) (w : world) :
  lock w = false ->
  exists evs w',
    send_client_list net name w = Normal tt w' /\ extends w false evs w'.
Proof.
  intros Hl. unfold send_client_list. run_locked Hl.
  destruct (Dict.get name (clients w)) as [s|];
    split_sends; eexists; eexists; (split; [reflexivity|]);
    unfold extends, log, set_lock; simpl; rewrite <- ?app_assoc; simpl;
    f_equal; f_equal.
Qed.

Lemma sock_send_frame (s : sock) (data : string) (w : world) :
  exists evs,
    extends w (lock w) evs (outcome_world (sock_send net s data w))
    /\ terminates (sock_send net s data w).
Proof.
  unfold sock_send. destruct (send_ok net s data w);
    (eexists; split; [|exact I]); unfold extends, log; simpl; reflexivity.
Qed.

(** One turn of the loop returns or raises, and changes only the trace. *)
Lemma dispatch_frame (s : sock) (name message : string) (w : world) :
  lock w = false ->
  exists evs,
    extends w false evs (outcome_world (dispatch net s name message w))
    /\ terminates (dispatch net s name message w).
Proof.
  intros Hl.
  assert (Hsend : forall data, exists evs,
             extends w false evs (outcome_world (sock_send net s data w))
             /\ terminates (sock_send net s data w)).
  { intros data. rewrite <- Hl. apply sock_send_frame. }
  assert (Hchat : forall t c, exists evs,
             extends w false evs (outcome_world (send_message net name t c w))
             /\ terminates (send_message net name t c w)).
  { intros t c. destruct (send_message_frame name t c w Hl) as (evs & w' & -> & H).
    exists evs. split; [exact H|exact I]. }
  unfold dispatch.
  destruct (startswith "CHAT:" message).
  - destruct (split ":" 2 message) as [|p0 [|p1 [|p2 [|p3 ps]]]]; auto.
  - destruct (String.eqb message "LIST").
    + destruct (send_client_list_frame name w Hl) as (evs & w' & -> & H).
      exists evs. split; [exact H|exact I].
    + destruct (startswith "BROADCAST:" message); [|auto].
      destruct (broadcast_message_spec net name (nth 1 (split ":" 1 message) "") w Hl)
        as (evs & w' & -> & H & _).
      eexists. split; [exact H|exact I].
Qed.

Lemma extends_refl (w : world) : extends w (lock w) [] w.
Proof. destruct w; unfold extends; simpl. now rewrite app_nil_r. Qed.

Lemma extends_trans (w w1 w2 : world) (l1 l2 : bool) (e1 e2 : list event) :
  extends w l1 e1 w1 -> extends w1 l2 e2 w2 -> extends w l2 (e1 ++ e2) w2.
Proof. intros H1 H2. world_eq. Qed.

(** The whole loop returns or raises, and changes only the trace: no
    frame of an active client touches the registry. *)
Lemma receive_loop_frame (s : sock) (name : string) (input : list recv_result)
    (w : world) :
  lock w = false ->
  exists evs,
    extends w false evs (outcome_world (receive_loop net s name input w))
    /\ terminates (receive_loop net s name input w).
Proof.
  revert w. induction input as [|[message|] rest IH]; intros w Hl.
  - exists []. split; [|exact I]. simpl. rewrite <- Hl. apply extends_refl.
  - simpl. destruct (String.eqb message "").
    + exists []. split; [|exact I]. simpl. rewrite <- Hl. apply extends_refl.
    + unfold bind.
      destruct (dispatch_frame s name message w Hl) as (evs & Hext & Hterm).
      destruct (dispatch net s name message w) as [[] w1|w1|w1]; simpl in *.
      * assert (Hl1 : lock w1 = false) by (rewrite Hext; reflexivity).
        destruct (IH w1 Hl1) as (evs' & Hext' & Hterm').
        exists (evs ++ evs')%list. split; [|exact Hterm'].
        eapply extends_trans; eassumption.
      * exists evs. split; [exact Hext|exact I].
      * contradiction.
  - exists []. split; [|exact I]. simpl. rewrite <- Hl. apply extends_refl.
Qed.

(** ** Registration *)

(** A free name: the entry goes last, [REGISTERED] is attempted, and when
    that write succeeds the join notice goes to every entry of the new
    registry. *)
Lemma register_fresh (s : sock) (name : string) (w : world) :
  lock w = false ->
  Dict.get name (clients w) = None ->
  let w1 := mkWorld (clients w ++ [(name, s)]) (Dict.set name s (client_threads w))
                    false (server_socket w) (closed w)
                    (trace w ++ [EvAcquire; EvRelease]) in
  if send_ok net s "REGISTERED" w1 then
    exists evs w',
      register net s name w = Normal true w'
      /\ extends w1 false
           ([EvSend s "REGISTERED" true; EvAcquire] ++ evs ++ [EvRelease]) w'
      /\ attempts evs
         = map (fun '(_, sk) => (sk, "STATUS:" ++ name ++ " joined the server"))
             (clients w ++ [(name, s)])
      /\ sends_only evs
  else
    register net s name w = Raised (log (EvSend s "REGISTERED" false) w1).
Proof.
  intros Hl Hfree w1.
  assert (Hrun : register net s name w
                 = (sock_send net s "REGISTERED" ;;
                    broadcast_status net (name ++ " joined the server") ;;
                    ret true) w1).
  { unfold register. unfold bind at 1. unfold with_lock. rewrite Hl.
    unfold bind at 1, gets. cbn [clients log set_lock].
    unfold Dict.mem. rewrite Hfree.
    unfold bind at 1 2, modify, ret. cbn.
    f_equal.
    unfold w1, log, set_lock, set_clients, set_client_threads; simpl.
    rewrite (set_fresh name s (clients w) Hfree), <- app_assoc. reflexivity. }
  rewrite Hrun. clear Hrun.
  destruct (send_ok net s "REGISTERED" w1) eqn:Hok.
  - destruct (broadcast_status_spec net (name ++ " joined the server")
                (log (EvSend s "REGISTERED" true) w1) eq_refl)
      as (evs & w' & Hb & Hext & Hatt & Hso).
    exists evs, w'. repeat split; try assumption.
    + unfold bind at 1. unfold sock_send. rewrite Hok.
      unfold bind at 1. rewrite Hb. reflexivity.
    + world_eq.
  - unfold bind at 1. unfold sock_send. rewrite Hok. reflexivity.
Qed.

(** A taken name: inside the lock the handler only answers and closes
    its own socket; the registry is as it was when [register] returns. *)
Lemma register_taken (s holder : sock) (name : string) (w : world) :
  lock w = false ->
  Dict.get name (clients w) = Some holder ->
  send_ok net s "ERROR:Name already taken" (log EvAcquire (set_lock true w)) = true ->
  register net s name w
  = Normal false
      (mkWorld (clients w) (client_threads w) false (server_socket w)
               (s :: closed w)
               (trace w ++ [EvAcquire; EvSend s "ERROR:Name already taken" true;
                            EvClose s; EvRelease])).
Proof.
  intros Hl Hget Hok. unfold register. unfold bind at 1. run_locked Hl.
  unfold Dict.mem. rewrite Hget. rewrite Hok.
  unfold sock_close. f_equal. world_eq.
Qed.

(** [remove_client] of a registered name closes the socket, deletes the
    entry, and then waits for ever: [broadcast_status] takes the lock
    that [remove_client] still holds. *)
Lemma remove_client_blocks (name : string) (s : sock) (w : world) :
  lock w = false ->
  Dict.get name (clients w) = Some s ->
  remove_client net name w
  = Blocked
      (mkWorld (Dict.del name (clients w)) (Dict.del name (client_threads w))
               true (server_socket w) (s :: closed w)
               (trace w ++ [EvAcquire; EvClose s])).
Proof.
  intros Hl Hget. unfold remove_client. run_locked Hl. rewrite Hget.
  unfold sock_close, broadcast_status, with_lock. cbn. f_equal. world_eq.
Qed.

(** The [try] block on a [REGISTER] frame with a free name: it is left
    by return or by an exception, with the name bound, the lock free and
    the entry added last. *)
Lemma try_registers_fresh (s : sock) (rest : string) (input : list recv_result)
    (w : world) :
  lock w = false ->
  Dict.get (strip rest) (clients w) = None ->
  exists o,
    handle_client_try net s (Data ("REGISTER:" ++ rest) :: input) w
    = (Some (strip rest), o)
    /\ terminates o
    /\ clients (outcome_world o) = (clients w ++ [(strip rest, s)])%list
    /\ lock (outcome_world o) = false.
Proof.
  intros Hl Hfree. eexists. split.
  - unfold handle_client_try. rewrite startswith_app.
    cbn -[register receive_loop strip]. reflexivity.
  - pose proof (register_fresh s (strip rest) w Hl Hfree) as H. cbv zeta in H.
    unfold bind at 1 2 3.
    destruct (send_ok net s "REGISTERED" _).
    + destruct H as (evs & w' & -> & Hext & _).
      assert (Hl' : lock w' = false) by (rewrite Hext; reflexivity).
      destruct (receive_loop_frame s (strip rest) input w' Hl') as (? & Hx & Ht).
      repeat split; [exact Ht| |]; rewrite Hx; simpl; [|reflexivity].
      rewrite Hext. reflexivity.
    + rewrite H. repeat split.
Qed.

(** Whatever a client registered under a non-empty free name sends, and
    however its loop ends, its handler never returns: the [finally]
    clause deletes the entry and then waits on the lock it holds. *)
Lemma registered_handler_never_returns (s : sock) (rest : string)
    (input : list recv_result) (w : world) :
  lock w = false ->
  Dict.get (strip rest) (clients w) = None ->
  strip rest <> "" ->
  exists w',
    handle_client net s (Data ("REGISTER:" ++ rest) :: input) w = Blocked w'
    /\ clients w' = clients w
    /\ lock w' = true
    /\ is_closed s w' = true.
Proof.
  intros Hl Hfree Hname.
  destruct (try_registers_fresh s rest input w Hl Hfree)
    as (o & Hrun & Hterm & Hcs & Hlo).
  unfold handle_client. rewrite Hrun.
  apply String.eqb_neq in Hname. rewrite Hname.
  assert (Hgo : forall w1, clients w1 = (clients w ++ [(strip rest, s)])%list ->
                           lock w1 = false ->
                           exists w', remove_client net (strip rest) w1 = Blocked w'
                                      /\ clients w' = clients w /\ lock w' = true
                                      /\ is_closed s w' = true).
  { intros w1 Hc1 Hl1.
    rewrite (remove_client_blocks (strip rest) s w1 Hl1)
      by (rewrite Hc1; now apply get_app_fresh).
    eexists. split; [reflexivity|]. cbn. rewrite Hc1.
    split; [now apply del_app_fresh|]. split; [reflexivity|].
    unfold is_closed. cbn. now rewrite Nat.eqb_refl. }
  destruct o as [[] w1|w1|w1]; simpl in *; [auto|auto|contradiction].
Qed.

(** A [REGISTER] frame for a taken, non-empty name, the error reply being
    written: the handler answers, closes its socket, and then its
    [finally] clause closes the holder's socket, deletes the holder's
    entry and waits for ever. *)
Lemma rejected_handler_removes_holder (s holder : sock) (rest : string)
    (input : list recv_result) (w : world) :
  lock w = false ->
  Dict.get (strip rest) (clients w) = Some holder ->
  strip rest <> "" ->
  send_ok net s "ERROR:Name already taken" (log EvAcquire (set_lock true w)) = true ->
  handle_client net s (Data ("REGISTER:" ++ rest) :: input) w
  = Blocked
      (mkWorld (Dict.del (strip rest) (clients w))
               (Dict.del (strip rest) (client_threads w))
               true (server_socket w) (holder :: s :: closed w)
               (trace w ++ [EvAcquire; EvSend s "ERROR:Name already taken" true;
                            EvClose s; EvRelease; EvAcquire; EvClose holder])).
Proof.
  intros Hl Hget Hname Hok.
  unfold handle_client, handle_client_try. rewrite startswith_app.
  cbn -[register receive_loop strip remove_client].
  unfold bind at 1. rewrite (register_taken s holder (strip rest) w Hl Hget Hok).
  unfold ret. apply String.eqb_neq in Hname. rewrite Hname.
  rewrite (remove_client_blocks (strip rest) holder) by (simpl; auto).
  f_equal. world_eq.
Qed.

(** ** Best-effort writes, exactly *)

Lemma send_ok_eq (s : sock) (data : string) (w w0 : world) :
  closed w0 = closed w -> trace w0 = trace w ->
  send_ok net s data w0 = send_ok net s data w.
Proof. intros Hc Ht. unfold send_ok, is_closed. now rewrite Hc, Ht. Qed.

Lemma takes_writes_send_ok (s : sock) (data : string) (w w0 : world) :
  takes_writes net s w -> closed w0 = closed w -> send_ok net s data w0 = true.
Proof.
  intros [Hopen Hnet] Hc. unfold send_ok, is_closed in *.
  now rewrite Hc, Hopen, Hnet.
Qed.

Lemma writes_attempts (shut : list sock) (tr : list event) (l : list (sock * string)) :
  attempts (writes net shut tr l) = l.
Proof.
  revert tr. induction l as [|[s d] l IH]; intros tr; simpl; [reflexivity|].
  now rewrite IH.
Qed.

Lemma writes_sends_only (shut : list sock) (tr : list event) (l : list (sock * string)) :
  sends_only (writes net shut tr l).
Proof.
  revert tr. induction l as [|[s d] l IH]; intros tr e; simpl; [tauto|].
  intros [<-|H]; [eauto|exact (IH _ e H)].
Qed.

(** A socket that takes its writes is delivered every frame written to
    it, whatever happens to the writes to other sockets. *)
Lemma writes_delivered (shut : list sock) (tr : list event)
    (l : list (sock * string)) (s : sock) :
  existsb (Nat.eqb s) shut = false ->
  (forall h data, net h s data = false) ->
  delivered s (writes net shut tr l)
  = map snd (filter (fun '(sk, _) => Nat.eqb sk s) l).
Proof.
  intros Hopen Hnet. revert tr.
  induction l as [|[sk d] l IH]; intros tr; [reflexivity|].
  cbn [writes filter].
  destruct (Nat.eqb sk s) eqn:E.
  - assert (sk = s) by now apply Nat.eqb_eq. subst sk.
    rewrite Hopen, Hnet. cbn [orb negb delivered map snd]. rewrite E.
    now rewrite IH.
  - destruct (negb _); cbn [delivered]; rewrite ?E; apply IH.
Qed.

Lemma writes_all_taken (shut : list sock) (tr : list event) (l : list (sock * string)) :
  (forall s data, In (s, data) l ->
     existsb (Nat.eqb s) shut = false /\ forall h d, net h s d = false) ->
  writes net shut tr l = map (fun '(s, data) => EvSend s data true) l.
Proof.
  revert tr. induction l as [|[s d] l IH]; intros tr H; simpl; [reflexivity|].
  destruct (H s d (or_introl eq_refl)) as [Hopen Hnet].
  rewrite Hopen, Hnet. simpl. f_equal. apply IH.
  intros s' d' Hin. apply (H s' d'). now right.
Qed.

Lemma delivered_unaddressed (s : sock) (evs : list event) :
  ~ In s (map fst (attempts evs)) -> delivered s evs = [].
Proof.
  induction evs as [|[| |sk d ok|sk] evs IH]; simpl; intros H; auto.
  destruct ok; [|tauto].
  destruct (Nat.eqb_spec sk s) as [->|_]; [tauto|]. tauto.
Qed.

(** The loop of guarded best-effort sends, in full. *)
Lemma for_each_writes (p : string -> bool) (data : string)
    (l : list (string * sock)) (w : world) :
  for_each l (fun '(name, sk) =>
                if p name then try_pass (sock_send net sk data) else ret tt) w
  = Normal tt
      (mkWorld (clients w) (client_threads w) (lock w) (server_socket w) (closed w)
         (trace w
          ++ writes net (closed w) (trace w)
               (map (fun '(_, sk) => (sk, data))
                    (filter (fun '(name, _) => p name) l)))).
Proof.
  revert w. induction l as [|[name sk] l IH]; intros w.
  - simpl. unfold ret. f_equal. destruct w; simpl. now rewrite app_nil_r.
  - simpl for_each. unfold bind at 1. destruct (p name) eqn:Hp.
    + rewrite try_send, IH. simpl. rewrite Hp. simpl.
      unfold send_ok, is_closed. now rewrite <- app_assoc.
    + unfold ret at 1. rewrite IH. simpl. now rewrite Hp.
Qed.

(** [broadcast_status] with the lock free, in full. *)
Lemma broadcast_status_exact (text : string) (w : world) :
  lock w = false ->
  broadcast_status net text w
  = Normal tt
      (mkWorld (clients w) (client_threads w) false (server_socket w) (closed w)
         (trace w ++ [EvAcquire]
          ++ writes net (closed w) (trace w ++ [EvAcquire])
               (map (fun '(_, sk) => (sk, "STATUS:" ++ text)) (clients w))
          ++ [EvRelease])).
Proof.
  intros Hl. unfold broadcast_status, with_lock. rewrite Hl.
  unfold bind at 1, gets. cbn [clients log set_lock].
  pose proof (for_each_writes (fun _ => true) ("STATUS:" ++ text) (clients w)
                (log EvAcquire (set_lock true w))) as H.
  cbn [clients log set_lock closed trace client_threads server_socket lock] in H.
  change (fun '(name, sk) =>
            if true then try_pass (sock_send net sk ("STATUS:" ++ text)) else ret tt)
    with (fun '((name, sk) : string * sock) =>
            try_pass (sock_send net sk ("STATUS:" ++ text))) in H.
  assert (Hf : filter (fun '((_, _) : string * sock) => true) (clients w)
               = clients w).
  { clear. induction (clients w) as [|[n s] l IH]; simpl; congruence. }
  rewrite Hf in H.
  rewrite H. f_equal. unfold log, set_lock. simpl. f_equal.
  now rewrite <- !app_assoc.
Qed.

(** [broadcast_message] with the lock free, in full. *)
Lemma broadcast_message_exact (sender content : string) (w : world) :
  lock w = false ->
  broadcast_message net sender content w
  = Normal tt
      (mkWorld (clients w) (client_threads w) false (server_socket w) (closed w)
         (trace w ++ [EvAcquire]
          ++ writes net (closed w) (trace w ++ [EvAcquire])
               (map (fun '(_, sk) => (sk, "MESSAGE:" ++ sender ++ ":" ++ content))
                    (filter (fun '(name, _) => negb (String.eqb name sender))
                            (clients w)))
          ++ [EvRelease])).
Proof.
  intros Hl. unfold broadcast_message, with_lock. rewrite Hl.
  unfold bind at 1, gets. cbn [clients log set_lock].
  pose proof (for_each_writes (fun name => negb (String.eqb name sender))
                ("MESSAGE:" ++ sender ++ ":" ++ content) (clients w)
                (log EvAcquire (set_lock true w))) as H.
  cbn [clients log set_lock closed trace client_threads server_socket lock] in H.
  rewrite H. f_equal. unfold log, set_lock. simpl. f_equal.
  now rewrite <- !app_assoc.
Qed.

Lemma writes_reach (shut : list sock) (tr : list event)
    (l : list (sock * string)) (s : sock) (data : string) :
  In (s, data) l ->
  existsb (Nat.eqb s) shut = false ->
  (forall h d, net h s d = false) ->
  In data (delivered s (writes net shut tr l)).
Proof.
  intros Hin Hopen Hnet. rewrite (writes_delivered shut tr l s Hopen Hnet).
  change data with (snd (s, data)). apply in_map.
  apply filter_In. split; [exact Hin|apply Nat.eqb_refl].
Qed.

Lemma addressed_elsewhere (s : sock) (data : string) (l : list (string * sock)) :
  ~ In s (Dict.values l) ->
  filter (fun '(sk, _) => Nat.eqb sk s) (map (fun '(_, sk) => (sk, data)) l) = [].
Proof.
  unfold Dict.values. induction l as [|[n sk] l IH]; simpl; [reflexivity|].
  intros H. destruct (Nat.eqb_spec sk s) as [->|_]; [tauto|]. apply IH. tauto.
Qed.

(** A free name, the [REGISTERED] reply being written: [register] in
    full. *)
Lemma register_fresh_exact (s : sock) (name : string) (w : world) :
  lock w = false ->
  Dict.get name (clients w) = None ->
  is_closed s w = false ->
  net (trace w ++ [EvAcquire; EvRelease]) s "REGISTERED" = false ->
  register net s name w
  = Normal true
      (mkWorld (clients w ++ [(name, s)]) (Dict.set name s (client_threads w))
         false (server_socket w) (closed w)
         ((trace w ++ [EvAcquire; EvRelease; EvSend s "REGISTERED" true; EvAcquire])
          ++ writes net (closed w)
               (trace w ++ [EvAcquire; EvRelease; EvSend s "REGISTERED" true;
                            EvAcquire])
               (map (fun '(_, sk) => (sk, "STATUS:" ++ name ++ " joined the server"))
                    (clients w ++ [(name, s)]))
          ++ [EvRelease])).
Proof.
  intros Hl Hfree Hopen Hnet.
  set (w1 := mkWorld (clients w ++ [(name, s)]) (Dict.set name s (client_threads w))
               false (server_socket w) (closed w)
               (trace w ++ [EvAcquire; EvRelease])).
  assert (Hrun : register net s name w
                 = (sock_send net s "REGISTERED" ;;
                    broadcast_status net (name ++ " joined the server") ;;
                    ret true) w1).
  { unfold register. unfold bind at 1. unfold with_lock. rewrite Hl.
    unfold bind at 1, gets. cbn [clients log set_lock].
    unfold Dict.mem. rewrite Hfree.
    unfold bind at 1 2, modify, ret. cbn.
    f_equal.
    unfold w1, log, set_lock, set_clients, set_client_threads; simpl.
    rewrite (set_fresh name s (clients w) Hfree), <- app_assoc. reflexivity. }
  assert (Hok : send_ok net s "REGISTERED" w1 = true).
  { unfold send_ok, is_closed in *. simpl. now rewrite Hopen, Hnet. }
  rewrite Hrun. unfold bind at 1. unfold sock_send. rewrite Hok.
  unfold bind at 1. rewrite broadcast_status_exact by reflexivity.
  unfold ret, w1, log. cbn [clients client_threads lock server_socket closed trace].
  f_equal. f_equal. rewrite <- !app_assoc. reflexivity.
Qed.

Lemma join_comma (names : list string) : join "," names = comma_separated names.
Proof.
  unfold join. induction names as [|a [|b r] IH]; simpl; try reflexivity.
  simpl in IH. now rewrite IH.
Qed.

(** * The claims *)

(** C1 (as amended).  After a successful registration of a free name [name]
    on socket [s] (the lock is free, [s] is open and the transport takes
    the [REGISTERED] reply), the registry is the old one with
    [name -> s] added last, and one write of
    [STATUS:<name> joined the server] is attempted for every entry of
    that new registry, the old entries in order and then [s] itself: the
    newcomer is not left out.  Each of these writes succeeds exactly
    when its socket is open and the transport takes it, so that every
    entry whose socket takes its writes receives the notice, whatever
    becomes of the other writes; and the newcomer, if its socket takes
    its writes and was not registered before, receives [REGISTERED] and
    then the notice of its own join.  This is one handler running alone;
    in general the notice goes to the entries of the registry as it is
    when [broadcast_status] takes the lock, whatever other handlers made
    of it in between (last part). *)
Theorem join_notice_sent_to_every_entry (s : sock) (name : string) (w : world) :
  lock w = false ->
  Dict.get name (clients w) = None ->
  is_closed s w = false ->
  net (trace w ++ [EvAcquire; EvRelease]) s "REGISTERED" = false ->
  let notice := "STATUS:" ++ name ++ " joined the server" in
  let before :=
    (trace w ++ [EvAcquire; EvRelease; EvSend s "REGISTERED" true; EvAcquire])%list in
  exists evs w',
    register net s name w = Normal true w'
    /\ clients w' = (clients w ++ [(name, s)])%list
    /\ trace w' = (before ++ evs ++ [EvRelease])%list
    /\ evs = writes net (closed w) before
               (map (fun '(_, sk) => (sk, notice)) (clients w ++ [(name, s)]))
    /\ sends_only evs
    /\ attempts evs
       = map (fun '(_, sk) => (sk, notice)) (clients w ++ [(name, s)])
    /\ In (s, notice) (attempts evs)
    /\ (forall n sk, In (n, sk) (clients w ++ [(name, s)]) ->
                     takes_writes net sk w -> In notice (delivered sk evs))
    /\ (takes_writes net s w -> ~ In s (Dict.values (clients w)) ->
        delivered s (trace w')
        = (delivered s (trace w) ++ ["REGISTERED"; notice])%list)
    /\ (forall w2, lock w2 = false ->
          exists w3,
            broadcast_status net (name ++ " joined the server") w2 = Normal tt w3
            /\ clients w3 = clients w2
            /\ trace w3
               = (trace w2 ++ [EvAcquire]
                    ++ writes net (closed w2) (trace w2 ++ [EvAcquire])
                         (map (fun '(_, sk) => (sk, notice)) (clients w2))
                    ++ [EvRelease])%list).
Proof.
  intros Hl Hfree Hopen Hnet notice before.
  eexists. eexists. split.
  { apply (register_fresh_exact s name w Hl Hfree Hopen Hnet). }
  cbn [clients trace].
  split; [reflexivity|]. split; [reflexivity|]. split; [reflexivity|].
  split; [apply writes_sends_only|].
  split; [apply writes_attempts|].
  split.
  { rewrite writes_attempts, map_app. apply in_or_app. right. now left. }
  split.
  { intros n sk Hin [Ho Hn]. apply writes_reach; [|exact Ho|exact Hn].
    change (sk, notice) with ((fun '((_, sk0) : string * sock) => (sk0, notice)) (n, sk)).
    now apply in_map. }
  split.
  { intros [Ho Hn] Hnew. unfold before.
    rewrite !delivered_app. cbn [delivered]. rewrite Nat.eqb_refl.
    rewrite (writes_delivered _ _ _ s Ho Hn), map_app, filter_app.
    rewrite (addressed_elsewhere s _ (clients w) Hnew).
    cbn. rewrite Nat.eqb_refl. cbn. rewrite ?app_nil_r.
    rewrite <- ?app_assoc. reflexivity. }
  intros w2 Hl2. rewrite (broadcast_status_exact _ w2 Hl2).
  eexists. split; [reflexivity|]. split; reflexivity.
Qed.

(** C3 (as amended).  The name a [REGISTER] frame registers is the text
    after its first [:] with the white space at both ends stripped, and
    it is accepted whenever that stripped name is not a key of the
    registry: the handler leaves its [try] block with the entry
    [strip rest -> s] added last.  Such a name is its own strip, and it
    is the empty string when the name part is empty or all white space. *)
Theorem registered_name_is_stripped_name_part (s : sock) (rest : string)
    (input : list recv_result) (w : world) :
  lock w = false ->
  Dict.get (strip rest) (clients w) = None ->
  exists o,
    handle_client_try net s (Data ("REGISTER:" ++ rest) :: input) w
    = (Some (strip rest), o)
    /\ terminates o
    /\ clients (outcome_world o) = (clients w ++ [(strip rest, s)])%list
    /\ strip (strip rest) = strip rest
    /\ (blank rest = true -> strip rest = "").
Proof.
  intros Hl Hfree.
  destruct (try_registers_fresh s rest input w Hl Hfree)
    as (o & Hrun & Hterm & Hcs & _).
  exists o. repeat split; try assumption.
  - apply strip_idem.
  - apply strip_blank.
Qed.

(** C6.  [send_message] with the lock free always returns normally (no
    write failure leaves the call) and changes only the trace.  Between
    taking and releasing the lock it does exactly this, every write
    succeeding exactly when its socket is open and the transport takes
    it at that moment:
    - target and sender both absent: nothing;
    - target absent, sender present: one write of
      [ERROR:Client '<target>' not found] to the sender;
    - target present: [MESSAGE:<sender>:<content>] is written to the
      target; when that write succeeds [MESSAGE_SENT] is written to the
      sender (and only if that acknowledgement itself fails,
      [ERROR:Failed to send message] after it); when the write to the
      target fails, [ERROR:Failed to send message] is written to the
      sender and no acknowledgement is.
    So where the sockets take their writes, the target receives the
    message and the sender the acknowledgement and nothing else, and the
    sender of a message to an absent target receives the error. *)
Theorem send_message_routes (sender target content : string) (w : world) :
  lock w = false ->
  let msg := "MESSAGE:" ++ sender ++ ":" ++ content in
  let absent := "ERROR:Client '" ++ target ++ "' not found" in
  let failed := "ERROR:Failed to send message" in
  let w1 := log EvAcquire (set_lock true w) in
  exists evs w',
    send_message net sender target content w = Normal tt w'
    /\ extends w false ([EvAcquire] ++ evs ++ [EvRelease]) w'
    /\ match Dict.get target (clients w), Dict.get sender (clients w) with
       | None, None => evs = []
       | None, Some ss =>
           evs = [EvSend ss absent (send_ok net ss absent w1)]
           /\ (takes_writes net ss w -> evs = [EvSend ss absent true])
       | Some ts, None =>
           evs = [EvSend ts msg (send_ok net ts msg w1)]
           /\ (takes_writes net ts w -> evs = [EvSend ts msg true])
       | Some ts, Some ss =>
           (if send_ok net ts msg w1 then
              let w2 := log (EvSend ts msg true) w1 in
              if send_ok net ss "MESSAGE_SENT" w2 then
                evs = [EvSend ts msg true; EvSend ss "MESSAGE_SENT" true]
              else
                evs = [EvSend ts msg true; EvSend ss "MESSAGE_SENT" false;
                       EvSend ss failed
                         (send_ok net ss failed
                            (log (EvSend ss "MESSAGE_SENT" false) w2))]
            else
              evs = [EvSend ts msg false;
                     EvSend ss failed
                       (send_ok net ss failed (log (EvSend ts msg false) w1))])
           /\ (takes_writes net ts w -> takes_writes net ss w ->
               evs = [EvSend ts msg true; EvSend ss "MESSAGE_SENT" true])
           /\ (send_ok net ts msg w1 = false -> takes_writes net ss w ->
               evs = [EvSend ts msg false; EvSend ss failed true])
       end.
Proof.
  intros Hl msg absent failed w1. subst msg absent failed w1.
  unfold send_message. run_locked Hl.
  destruct (Dict.get target (clients w)) as [ts|];
    destruct (Dict.get sender (clients w)) as [ss|].
  - (* both present *)
    destruct (send_ok net ts _ (log EvAcquire (set_lock true w))) eqn:H1.
    + destruct (send_ok net ss "MESSAGE_SENT" _) eqn:H2.
      * eexists. eexists. split; [reflexivity|]. split; [|split; [|split]];
          [|reflexivity|reflexivity|discriminate]. world_eq.
      * destruct (send_ok net ss "ERROR:Failed to send message" _) eqn:H3;
          (eexists; eexists; split; [reflexivity|];
           split; [|split; [|split]]; [|reflexivity| |discriminate]; [world_eq|]);
          intros Hts Hss; rewrite (takes_writes_send_ok ss _ w _ Hss) in H2
            by reflexivity; discriminate H2.
    + destruct (send_ok net ss "ERROR:Failed to send message" _) eqn:H3;
        (eexists; eexists; split; [reflexivity|];
         split; [|split; [|split]]; [|reflexivity| |]; [world_eq| |]).
      * intros Hts Hss. rewrite (takes_writes_send_ok ts _ w _ Hts) in H1
          by reflexivity. discriminate H1.
      * reflexivity.
      * intros Hts Hss. rewrite (takes_writes_send_ok ts _ w _ Hts) in H1
          by reflexivity. discriminate H1.
      * intros _ Hss. rewrite (takes_writes_send_ok ss _ w _ Hss) in H3
          by reflexivity. discriminate H3.
  - (* target present, sender absent *)
    destruct (send_ok net ts _ _) eqn:H1;
      (eexists; eexists; split; [reflexivity|];
       split; [|split]; [|reflexivity|]; [world_eq|]).
    + reflexivity.
    + intros Hts. rewrite (takes_writes_send_ok ts _ w _ Hts) in H1
        by reflexivity. discriminate H1.
  - (* target absent, sender present *)
    destruct (send_ok net ss _ _) eqn:H1;
      (eexists; eexists; split; [reflexivity|];
       split; [|split]; [|reflexivity|]; [world_eq|]).
    + reflexivity.
    + intros Hss. rewrite (takes_writes_send_ok ss _ w _ Hss) in H1
        by reflexivity. discriminate H1.
  - eexists. eexists. split; [reflexivity|]. split; [|reflexivity]. world_eq.
Qed.

(** C7.  A frame that starts with [CHAT:] is split on its first two
    [:] only.  With a target part free of [:], the frame
    [CHAT:<target>:<content>] is routed as a unicast to the stripped
    target with the whole of [content], colons included.  With no second
    separator (the text after [CHAT:] has no [:]) the handler writes
    [ERROR:Invalid CHAT format] to its own socket and, that write
    succeeding, goes on to read the next frame in a state that differs
    by this one trace entry: same registry, same lock, nothing closed. *)
Theorem chat_frame_split (s : sock) (name target content body : string)
    (rest : list recv_result) (w : world) :
  lacks ":" target = true ->
  lacks ":" body = true ->
  send_ok net s "ERROR:Invalid CHAT format" w = true ->
  split ":" 2 ("CHAT:" ++ target ++ ":" ++ content) = ["CHAT"; target; content]
  /\ dispatch net s name ("CHAT:" ++ target ++ ":" ++ content) w
     = send_message net name (strip target) content w
  /\ split ":" 2 ("CHAT:" ++ body) = ["CHAT"; body]
  /\ dispatch net s name ("CHAT:" ++ body) w
     = Normal tt (log (EvSend s "ERROR:Invalid CHAT format" true) w)
  /\ receive_loop net s name (Data ("CHAT:" ++ body) :: rest) w
     = receive_loop net s name rest (log (EvSend s "ERROR:Invalid CHAT format" true) w).
Proof.
  intros Ht Hb Hok.
  assert (H1 : split ":" 2 ("CHAT:" ++ target ++ ":" ++ content)
               = ["CHAT"; target; content]).
  { cbn -[cut]. change (target ++ ":" ++ content) with (target ++ String ":" content).
    cbn. rewrite (cut_lacks ":" target content Ht). reflexivity. }
  assert (H2 : split ":" 2 ("CHAT:" ++ body) = ["CHAT"; body]).
  { cbn. rewrite (cut_none ":" body Hb). reflexivity. }
  assert (H3 : dispatch net s name ("CHAT:" ++ body) w
               = Normal tt (log (EvSend s "ERROR:Invalid CHAT format" true) w)).
  { unfold dispatch.
    rewrite startswith_app.
    rewrite H2. unfold sock_send. now rewrite Hok. }
  repeat split; try assumption.
  - unfold dispatch.
    rewrite startswith_app.
    now rewrite H1.
  - change (receive_loop net s name (Data ("CHAT:" ++ body) :: rest) w)
      with ((dispatch net s name ("CHAT:" ++ body) ;;
             receive_loop net s name rest) w).
    unfold bind at 1. now rewrite H3.
Qed.

(** C8.  [broadcast_message] with the lock free always returns normally,
    whatever writes fail, and changes only the trace.  Between taking
    and releasing the lock it attempts exactly one write of
    [MESSAGE:<sender>:<content>] per registry entry whose name is not
    the sender's, in registry order, each write succeeding exactly when
    its socket is open and the transport takes it: a failed write does
    not stop the later ones.  So every other entry whose socket takes
    its writes receives the message, whatever becomes of the writes to
    the rest; where all of them do, every write succeeds; and nothing is
    written to the sender's socket (sockets being registered under one
    name each), which receives nothing. *)
Theorem broadcast_message_reaches_all_others (sender content : string) (w : world) :
  lock w = false ->
  let msg := "MESSAGE:" ++ sender ++ ":" ++ content in
  let others :=
    filter (fun '(name, _) => negb (String.eqb name sender)) (clients w) in
  exists evs w',
    broadcast_message net sender content w = Normal tt w'
    /\ extends w false ([EvAcquire] ++ evs ++ [EvRelease]) w'
    /\ evs = writes net (closed w) (trace w ++ [EvAcquire])
               (map (fun '(_, sk) => (sk, msg)) others)
    /\ sends_only evs
    /\ attempts evs = map (fun '(_, sk) => (sk, msg)) others
    /\ (forall name sk, In (name, sk) others -> takes_writes net sk w ->
                        In msg (delivered sk evs))
    /\ ((forall name sk, In (name, sk) others -> takes_writes net sk w) ->
        evs = map (fun '(_, sk) => EvSend sk msg true) others)
    /\ (forall ss, Dict.get sender (clients w) = Some ss ->
                   NoDup (Dict.values (clients w)) ->
                   ~ In ss (map fst (attempts evs)) /\ delivered ss evs = []).
Proof.
  intros Hl msg others.
  rewrite (broadcast_message_exact sender content w Hl).
  eexists. eexists. split; [reflexivity|].
  split; [unfold extends; reflexivity|].
  split; [reflexivity|].
  split; [apply writes_sends_only|].
  split; [apply writes_attempts|].
  split.
  { intros name sk Hin [Ho Hn]. apply writes_reach; [|exact Ho|exact Hn].
    change (sk, msg) with ((fun '((_, sk0) : string * sock) => (sk0, msg)) (name, sk)).
    now apply in_map. }
  split.
  { intros Hall. rewrite writes_all_taken.
    - rewrite map_map. apply map_ext. now intros [n sk].
    - intros sk d Hin. apply in_map_iff in Hin as ([n sk'] & Hpair & Hin).
      inversion Hpair; subst. exact (Hall n sk Hin). }
  intros ss Hget Hnd.
  assert (Hno : ~ In ss (map fst (attempts
                   (writes net (closed w) (trace w ++ [EvAcquire])
                      (map (fun '(_, sk) => (sk, msg)) others))))).
  { rewrite writes_attempts. intros Hin.
    apply in_map_iff in Hin as ([sk d] & Hfst & Hin). simpl in Hfst. subst sk.
    apply in_map_iff in Hin as ([n sk] & Hpair & Hin). inversion Hpair; subst.
    apply filter_In in Hin as [Hin Hne].
    apply negb_true_iff, String.eqb_neq in Hne. apply Hne.
    eapply values_injective; eauto using get_in. }
  split; [exact Hno|now apply delivered_unaddressed].
Qed.

(** C9.  A [LIST] frame from a requester registered as [r] on socket [s]
    (lock free) is answered, between taking and releasing the lock, by
    one write to [s] and nothing else: [CLIENT_LIST:] followed by the
    registered names other than [r], in registry order with a comma
    between each two, or by [No other clients] when there is none.  The
    write succeeds exactly when [s] is open and the transport takes it,
    so a requester whose socket takes its writes receives that reply;
    the call returns normally either way, and the registry is
    unchanged. *)
Theorem list_reply_to_requester (own : sock) (r : string) (s : sock) (w : world) :
  lock w = false ->
  Dict.get r (clients w) = Some s ->
  let others := filter (fun n => negb (String.eqb n r)) (Dict.keys (clients w)) in
  let reply :=
    "CLIENT_LIST:" ++ match others with
                      | [] => "No other clients"
                      | _ => comma_separated others
                      end in
  let ok := send_ok net s reply (log EvAcquire (set_lock true w)) in
  exists w',
    dispatch net own r "LIST" w = Normal tt w'
    /\ send_client_list net r w = Normal tt w'
    /\ extends w false [EvAcquire; EvSend s reply ok; EvRelease] w'
    /\ clients w' = clients w
    /\ (takes_writes net s w ->
        ok = true
        /\ delivered s (trace w') = (delivered s (trace w) ++ [reply])%list).
Proof.
  intros Hl Hget others reply ok.
  assert (Hreply : "CLIENT_LIST:" ++ match others with
                                     | [] => "No other clients"
                                     | _ => join "," others
                                     end = reply).
  { unfold reply. destruct others; [reflexivity|]. now rewrite join_comma. }
  change (dispatch net own r "LIST" w) with (send_client_list net r w).
  assert (Hrun : send_client_list net r w
                 = Normal tt
                     (mkWorld (clients w) (client_threads w) false (server_socket w)
                        (closed w)
                        (trace w ++ [EvAcquire; EvSend s reply ok; EvRelease]))).
  { unfold send_client_list. run_locked Hl. rewrite Hget.
    fold others. rewrite Hreply. fold ok.
    destruct ok; f_equal; world_eq. }
  rewrite Hrun. eexists. split; [reflexivity|]. split; [reflexivity|].
  split; [unfold extends; reflexivity|]. split; [reflexivity|].
  intros Hs.
  assert (Hok : ok = true) by (apply (takes_writes_send_ok s _ w); [exact Hs|reflexivity]).
  split; [exact Hok|]. cbn [trace]. rewrite delivered_app, Hok. cbn.
  now rewrite Nat.eqb_refl.
Qed.

(** C10.  Nothing compares sender and target.  Let [a] be registered on
    socket [s], an open socket on a transport that takes its writes.  A
    [CHAT] frame of [a] whose target field (the text between its first
    two [:], stripped) is [a] itself is routed like any other: the
    server writes [MESSAGE:<a>:<msg>] and then [MESSAGE_SENT] to [s],
    and the handler goes on with the registry unchanged. *)
Theorem self_chat_delivered (a frame head target msg : string) (s : sock)
    (w : world) :
  lock w = false ->
  Dict.get a (clients w) = Some s ->
  startswith "CHAT:" frame = true ->
  split ":" 2 frame = [head; target; msg] ->
  strip target = a ->
  is_closed s w = false ->
  (forall tr data, net tr s data = false) ->
  exists w',
    dispatch net s a frame w = Normal tt w'
    /\ extends w false
         [EvAcquire; EvSend s ("MESSAGE:" ++ a ++ ":" ++ msg) true;
          EvSend s "MESSAGE_SENT" true; EvRelease] w'
    /\ delivered s (trace w')
       = (delivered s (trace w)
            ++ [("MESSAGE:" ++ a ++ ":" ++ msg)%string; "MESSAGE_SENT"])%list.
Proof.
  intros Hl Hget Hchat Hsplit Hstrip Hopen Hnet.
  assert (Hd : dispatch net s a frame w = send_message net a a msg w).
  { unfold dispatch. now rewrite Hchat, Hsplit, Hstrip. }
  assert (Hok : forall data w0, closed w0 = closed w -> send_ok net s data w0 = true).
  { intros data w0 Hc. unfold send_ok, is_closed in *. now rewrite Hc, Hopen, Hnet. }
  rewrite Hd. unfold send_message. run_locked Hl. rewrite Hget.
  rewrite Hok by reflexivity. rewrite Hok by reflexivity.
  eexists. split; [reflexivity|]. split; [world_eq|].
  cbn. rewrite <- !app_assoc, delivered_app. cbn. now rewrite Nat.eqb_refl.
Qed.

End Handler.

(** ** Shutdown *)

Lemma for_each_close (l : list sock) (w : world) :
  for_each l (fun sk => try_pass (sock_close sk)) w
  = Normal tt
      (mkWorld (clients w) (client_threads w) (lock w) (server_socket w)
               (rev l ++ closed w) (trace w ++ map EvClose l)).
Proof.
  revert w. induction l as [|sk l IH]; intros w.
  - simpl. unfold ret. f_equal. destruct w; simpl. now rewrite app_nil_r.
  - simpl for_each. unfold bind at 1, try_pass, try_except, sock_close.
    rewrite IH. f_equal. unfold log, set_closed; simpl.
    now rewrite <- !app_assoc.
Qed.

(** C4 (as amended).  [stop] with the lock free returns normally after
    doing, in this order: take the lock; close every registered
    connection, in registry order; clear the registry and the thread
    table; release the lock; and only then close the listening socket,
    if there is one. *)
Theorem stop_closes_clients_then_listener (w : world) :
  lock w = false ->
  exists w',
    stop w = Normal tt w'
    /\ clients w' = []
    /\ client_threads w' = []
    /\ lock w' = false
    /\ trace w'
       = (trace w ++ [EvAcquire] ++ map EvClose (Dict.values (clients w))
            ++ [EvRelease]
            ++ match server_socket w with
               | Some l => [EvClose l]
               | None => []
               end)%list.
Proof.
  intros Hl. unfold stop. unfold bind at 1. unfold with_lock. rewrite Hl.
  unfold bind at 1, gets. cbn [clients log set_lock].
  unfold bind at 1. rewrite for_each_close.
  unfold bind, modify, ret, gets. cbn.
  destruct (server_socket w) as [l|]; cbn; eexists;
    (split; [reflexivity|]); cbn; repeat split;
    rewrite <- ?app_assoc; cbn; rewrite ?app_nil_r; reflexivity.
Qed.

(** * The claims at concrete inputs *)

Lemma join_notice_sent_to_every_entry_witness :
  lock w_bob = false
  /\ Dict.get "alice" (clients w_bob) = None
  /\ is_closed 1 w_bob = false
  /\ dead_peer 2 (trace w_bob ++ [EvAcquire; EvRelease]) 1 "REGISTERED" = false
  /\ exists w',
       register (dead_peer 2) 1 "alice" w_bob = Normal true w'
       /\ clients w' = [("bob", 2); ("alice", 1)]
       /\ trace w'
          = [EvAcquire; EvRelease; EvSend 1 "REGISTERED" true; EvAcquire;
             EvSend 2 "STATUS:alice joined the server" false;
             EvSend 1 "STATUS:alice joined the server" true; EvRelease]
       /\ delivered 1 (trace w') = ["REGISTERED"; "STATUS:alice joined the server"].
Proof.
  do 4 (split; [reflexivity|]).
  pose proof (join_notice_sent_to_every_entry (dead_peer 2) 1 "alice" w_bob
                eq_refl eq_refl eq_refl eq_refl) as H.
  cbv zeta in H.
  destruct H as (evs & w' & Hrun & Hcs & Htr & Hevs & _ & _ & _ & _ & Hdel & _).
  exists w'. split; [exact Hrun|]. split; [exact Hcs|]. split.
  - rewrite Htr, Hevs. reflexivity.
  - apply Hdel.
    + split; [reflexivity|]. intros tr data. reflexivity.
    + simpl. intros [H|[]]. discriminate H.
Defined.

(** C1, as stated, fails: bob being registered, alice registers on socket
    1 and is herself sent the notice of her own join, after [REGISTERED]. *)
Lemma newcomer_receives_own_join_notice :
  exists w',
    register reliable_net 1 "alice" w_bob = Normal true w'
    /\ delivered 1 (trace w') = ["REGISTERED"; "STATUS:alice joined the server"]
    /\ delivered 2 (trace w') = ["STATUS:alice joined the server"].
Proof. eexists. split; [vm_compute; reflexivity|]. split; reflexivity. Qed.

(** C2 fails on the code.  With bob registered, a client registers as
    alice and closes its stream: the handler closes socket 1, deletes the
    entry, and then blocks for ever holding the lock; bob has received
    the join notice only, never [STATUS:alice left the server].  And a
    client accepted under the empty name is not cleaned up at all: its
    entry stays in the registry and its socket is never closed. *)
Theorem leave_notice_never_sent :
  handle_client reliable_net 1 [Data "REGISTER:alice"] w_bob
  = Blocked
      (mkWorld [("bob", 2)] [("bob", 2)] true (Some 0) [1]
         [EvAcquire; EvRelease; EvSend 1 "REGISTERED" true; EvAcquire;
          EvSend 2 "STATUS:alice joined the server" true;
          EvSend 1 "STATUS:alice joined the server" true; EvRelease;
          EvAcquire; EvClose 1])
  /\ handle_client reliable_net 1 [Data "REGISTER:"] w_bob
     = Normal tt
         (mkWorld [("bob", 2); ("", 1)] [("bob", 2); ("", 1)] false (Some 0) []
            [EvAcquire; EvRelease; EvSend 1 "REGISTERED" true; EvAcquire;
             EvSend 2 "STATUS: joined the server" true;
             EvSend 1 "STATUS: joined the server" true; EvRelease]).
Proof. split; vm_compute; reflexivity. Qed.

Lemma registered_name_is_stripped_name_part_witness :
  lock init = false
  /\ Dict.get (strip "  al ice ") (clients init) = None
  /\ exists o,
       handle_client_try reliable_net 1 [Data "REGISTER:  al ice "] init
       = (Some "al ice", o)
       /\ clients (outcome_world o) = [("al ice", 1)].
Proof.
  do 2 (split; [reflexivity|]).
  destruct (registered_name_is_stripped_name_part reliable_net 1 "  al ice " [] init
              eq_refl eq_refl)
    as (o & Hrun & _ & Hcs & _).
  exists o. split; [exact Hrun|exact Hcs].
Defined.

(** C3, as stated, fails: a [REGISTER] frame with an empty name part, and
    one with a name part of spaces, each yield a registry entry, under
    the empty name, which stays when the handler has ended. *)
Lemma empty_name_is_registered :
  (exists w',
     handle_client reliable_net 1 [Data "REGISTER:"] init = Normal tt w'
     /\ clients w' = [("", 1)])
  /\ (exists w',
        handle_client reliable_net 1 [Data "REGISTER:   "] init = Normal tt w'
        /\ clients w' = [("", 1)]).
Proof. split; eexists; (split; [vm_compute; reflexivity|reflexivity]). Qed.

Lemma stop_closes_clients_then_listener_witness :
  lock w_alice_bob = false
  /\ exists w',
       stop w_alice_bob = Normal tt w'
       /\ clients w' = []
       /\ trace w' = [EvAcquire; EvClose 1; EvClose 2; EvRelease; EvClose 0].
Proof.
  split; [reflexivity|].
  destruct (stop_closes_clients_then_listener w_alice_bob eq_refl)
    as (w' & Hrun & Hcs & _ & _ & Htr).
  exists w'. repeat split; assumption.
Defined.

(** C4, as stated, fails: with alice and bob connected and socket 0
    listening, [stop] closes sockets 1 and 2 under the lock first and the
    listening socket last, after the lock is released. *)
Lemma stop_closes_listener_last :
  exists w',
    stop w_alice_bob = Normal tt w'
    /\ trace w' = [EvAcquire; EvClose 1; EvClose 2; EvRelease; EvClose 0]
    /\ hd_error (closes (trace w')) <> Some 0
    /\ last (closes (trace w')) 1 = 0.
Proof.
  eexists. split; [vm_compute; reflexivity|].
  split; [reflexivity|]. split; [discriminate|reflexivity].
Qed.

(** C5 fails on the code.  With alice registered on socket 1, a second
    connection on socket 2 sends [REGISTER:alice].  The registration
    step itself answers the error, closes socket 2 and leaves the
    registry alone; but the handler's [finally] then removes the entry
    of the first alice, closes her socket, and blocks for ever holding
    the lock: the registry is empty afterwards. *)
Theorem rejected_duplicate_evicts_holder :
  register reliable_net 2 "alice" w_alice
  = Normal false
      (mkWorld [("alice", 1)] [("alice", 1)] false (Some 0) [2]
         [EvAcquire; EvSend 2 "ERROR:Name already taken" true; EvClose 2; EvRelease])
  /\ handle_client reliable_net 2 [Data "REGISTER:alice"] w_alice
     = Blocked
         (mkWorld [] [] true (Some 0) [1; 2]
            [EvAcquire; EvSend 2 "ERROR:Name already taken" true; EvClose 2;
             EvRelease; EvAcquire; EvClose 1]).
Proof. split; vm_compute; reflexivity. Qed.

Lemma send_message_routes_witness :
  lock w_alice_bob = false
  /\ (exists w',
        send_message reliable_net "alice" "bob" "hello" w_alice_bob = Normal tt w'
        /\ trace w' = [EvAcquire; EvSend 2 "MESSAGE:alice:hello" true;
                       EvSend 1 "MESSAGE_SENT" true; EvRelease])
  /\ (exists w',
        send_message (dead_peer 2) "alice" "bob" "hello" w_alice_bob = Normal tt w'
        /\ trace w' = [EvAcquire; EvSend 2 "MESSAGE:alice:hello" false;
                       EvSend 1 "ERROR:Failed to send message" true; EvRelease]).
Proof.
  split; [reflexivity|]. split.
  - pose proof (send_message_routes reliable_net "alice" "bob" "hello" w_alice_bob
                  eq_refl) as H.
    cbv zeta in H. destruct H as (evs & w' & Hrun & Hext & Hm).
    cbn [w_alice_bob registry_of clients Dict.get String.eqb Ascii.eqb Bool.eqb] in Hm.
    destruct Hm as (_ & Hgood & _).
    exists w'. split; [exact Hrun|].
    rewrite Hext, Hgood; [reflexivity| |];
      (split; [reflexivity|intros tr data; reflexivity]).
  - pose proof (send_message_routes (dead_peer 2) "alice" "bob" "hello" w_alice_bob
                  eq_refl) as H.
    cbv zeta in H. destruct H as (evs & w' & Hrun & Hext & Hm).
    cbn [w_alice_bob registry_of clients Dict.get String.eqb Ascii.eqb Bool.eqb] in Hm.
    destruct Hm as (_ & _ & Hbad).
    exists w'. split; [exact Hrun|].
    rewrite Hext, Hbad; [reflexivity|reflexivity|].
    split; [reflexivity|intros tr data; reflexivity].
Defined.

Lemma chat_frame_split_witness :
  lacks ":" "bob" = true
  /\ lacks ":" "bob hello" = true
  /\ send_ok reliable_net 1 "ERROR:Invalid CHAT format" w_alice_bob = true
  /\ split ":" 2 "CHAT:bob:see you at 10:30" = ["CHAT"; "bob"; "see you at 10:30"]
  /\ dispatch reliable_net 1 "alice" "CHAT:bob hello" w_alice_bob
     = Normal tt (log (EvSend 1 "ERROR:Invalid CHAT format" true) w_alice_bob).
Proof.
  do 3 (split; [reflexivity|]).
  destruct (chat_frame_split reliable_net 1 "alice" "bob" "see you at 10:30"
              "bob hello" [] w_alice_bob eq_refl eq_refl eq_refl)
    as (H1 & _ & _ & H4 & _).
  split; [exact H1|exact H4].
Defined.

Lemma broadcast_message_reaches_all_others_witness :
  lock w_three = false
  /\ exists evs w',
       broadcast_message (dead_peer 2) "alice" "hi" w_three = Normal tt w'
       /\ trace w' = ([EvAcquire] ++ evs ++ [EvRelease])%list
       /\ evs = [EvSend 2 "MESSAGE:alice:hi" false; EvSend 3 "MESSAGE:alice:hi" true]
       /\ In "MESSAGE:alice:hi" (delivered 3 evs)
       /\ delivered 1 evs = [].
Proof.
  split; [reflexivity|].
  pose proof (broadcast_message_reaches_all_others (dead_peer 2) "alice" "hi" w_three
                eq_refl) as H.
  cbv zeta in H.
  destruct H as (evs & w' & Hrun & Hext & Hevs & _ & _ & Hreach & _ & Hself).
  exists evs, w'. split; [exact Hrun|]. split; [rewrite Hext; reflexivity|].
  split; [rewrite Hevs; reflexivity|]. split.
  - apply (Hreach "carol" 3).
    + simpl. right. now left.
    + split; [reflexivity|intros tr data; reflexivity].
  - apply (Hself 1 eq_refl).
    repeat constructor; simpl; intuition discriminate.
Defined.

Lemma list_reply_to_requester_witness :
  lock w_three = false
  /\ Dict.get "bob" (clients w_three) = Some 2
  /\ exists w',
       dispatch reliable_net 2 "bob" "LIST" w_three = Normal tt w'
       /\ trace w' = [EvAcquire; EvSend 2 "CLIENT_LIST:alice,carol" true; EvRelease]
       /\ delivered 2 (trace w') = ["CLIENT_LIST:alice,carol"]
       /\ delivered 1 (trace w') = []
       /\ delivered 3 (trace w') = [].
Proof.
  do 2 (split; [reflexivity|]).
  pose proof (list_reply_to_requester reliable_net 2 "bob" 2 w_three
                eq_refl eq_refl) as H.
  cbv zeta in H.
  destruct H as (w' & Hrun & _ & Hext & _ & Hgood).
  destruct Hgood as [Hok Hdel].
  { split; [reflexivity|intros tr data; reflexivity]. }
  exists w'. split; [exact Hrun|]. split; [|split; [exact Hdel|]].
  - rewrite Hext. reflexivity.
  - rewrite Hext. split; reflexivity.
Defined.

Lemma self_chat_delivered_witness :
  lock w_alice_bob = false
  /\ Dict.get "alice" (clients w_alice_bob) = Some 1
  /\ startswith "CHAT:" "CHAT:alice:note to self" = true
  /\ split ":" 2 "CHAT:alice:note to self" = ["CHAT"; "alice"; "note to self"]
  /\ strip "alice" = "alice"
  /\ is_closed 1 w_alice_bob = false
  /\ (forall tr data, reliable_net tr 1 data = false)
  /\ exists w',
       dispatch reliable_net 1 "alice" "CHAT:alice:note to self" w_alice_bob
       = Normal tt w'
       /\ delivered 1 (trace w') = ["MESSAGE:alice:note to self"; "MESSAGE_SENT"].
Proof.
  do 7 (split; [reflexivity|]).
  destruct (self_chat_delivered reliable_net "alice" "CHAT:alice:note to self"
              "CHAT" "alice" "note to self" 1 w_alice_bob
              eq_refl eq_refl eq_refl eq_refl eq_refl eq_refl (fun _ _ => eq_refl))
    as (w' & Hrun & _ & Hd).
  exists w'. split; [exact Hrun|exact Hd].
Defined.

(** * Beyond the claims: the rest of the server *)

(** ** What a run appends to the trace *)

Section Emits.

Variable P : event -> Prop.

Lemma emits_ret {A} (a : A) : emits P (ret a).
Proof. intros w. exists []. simpl. now rewrite app_nil_r. Qed.

Lemma emits_gets {A} (f : world -> A) : emits P (gets f).
Proof. intros w. exists []. simpl. now rewrite app_nil_r. Qed.

Lemma emits_raise {A} : emits P (@Raised A).
Proof. intros w. exists []. simpl. now rewrite app_nil_r. Qed.

Lemma emits_modify (f : world -> world) :
  (forall w, trace (f w) = trace w) -> emits P (modify f).
Proof. intros Hf w. exists []. simpl. now rewrite Hf, app_nil_r. Qed.

Lemma emits_bind {A B} (c : M A) (k : A -> M B) :
  emits P c -> (forall a, emits P (k a)) -> emits P (bind c k).
Proof.
  intros Hc Hk w. destruct (Hc w) as (e1 & Ht1 & HP1). unfold bind.
  destruct (c w) as [a w1|w1|w1]; simpl in *; try (exists e1; now split).
  destruct (Hk a w1) as (e2 & Ht2 & HP2).
  exists (e1 ++ e2)%list. split.
  - now rewrite Ht2, Ht1, app_assoc.
  - apply Forall_app. now split.
Qed.

Lemma emits_try_except {A} (body handler : M A) :
  emits P body -> emits P handler -> emits P (try_except body handler).
Proof.
  intros Hb Hh w. destruct (Hb w) as (e1 & Ht1 & HP1). unfold try_except.
  destruct (body w) as [a w1|w1|w1]; simpl in *; try (exists e1; now split).
  destruct (Hh w1) as (e2 & Ht2 & HP2).
  exists (e1 ++ e2)%list. split.
  - now rewrite Ht2, Ht1, app_assoc.
  - apply Forall_app. now split.
Qed.

Lemma emits_with_lock {A} (body : M A) :
  P EvAcquire -> P EvRelease -> emits P body -> emits P (with_lock body).
Proof.
  intros Ha Hr Hb w. unfold with_lock.
  destruct (lock w).
  - exists []. simpl. now rewrite app_nil_r.
  - destruct (Hb (log EvAcquire (set_lock true w))) as (e & Ht & HP).
    destruct (body (log EvAcquire (set_lock true w))) as [a w1|w1|w1];
      simpl in *.
    + exists (EvAcquire :: e ++ [EvRelease])%list. split.
      * rewrite Ht, <- !app_assoc. reflexivity.
      * constructor; [exact Ha|]. apply Forall_app. split; [exact HP|].
        now constructor.
    + exists (EvAcquire :: e ++ [EvRelease])%list. split.
      * rewrite Ht, <- !app_assoc. reflexivity.
      * constructor; [exact Ha|]. apply Forall_app. split; [exact HP|].
        now constructor.
    + exists (EvAcquire :: e). split.
      * rewrite Ht, <- !app_assoc. reflexivity.
      * now constructor.
Qed.

Lemma emits_for_each {A} (l : list A) (body : A -> M unit) :
  (forall x, emits P (body x)) -> emits P (for_each l body).
Proof.
  intros Hb. induction l as [|x l IH]; simpl.
  - apply emits_ret.
  - apply emits_bind; auto.
Qed.

Lemma emits_close (s : sock) : P (EvClose s) -> emits P (sock_close s).
Proof. intros H w. exists [EvClose s]. simpl. split; [reflexivity|now constructor]. Qed.

Lemma emits_send (net : list event -> sock -> string -> bool) (s : sock)
    (data : string) :
  (forall ok, P (EvSend s data ok)) -> emits P (sock_send net s data).
Proof.
  intros H w. unfold sock_send.
  destruct (send_ok net s data w); eexists; simpl;
    (split; [reflexivity|constructor; [apply H|constructor]]).
Qed.

End Emits.

(** ** Only catalogue frames are written *)

Lemma cut_app_some (sep : ascii) (a b : string) :
  exists x y, cut sep (a ++ String sep b) = Some (x, y).
Proof.
  induction a as [|c a (x & y & IH)]; simpl.
  - rewrite Ascii.eqb_refl. eauto.
  - destruct (Ascii.eqb c sep); [eauto|]. rewrite IH. eauto.
Qed.

Lemma server_frame_error (t : string) : server_frame ("ERROR:" ++ t) = true.
Proof. unfold server_frame. rewrite startswith_app. now rewrite !orb_true_r. Qed.

Lemma server_frame_status (t : string) : server_frame ("STATUS:" ++ t) = true.
Proof. unfold server_frame. rewrite startswith_app. now rewrite !orb_true_r. Qed.

Lemma server_frame_list (t : string) : server_frame ("CLIENT_LIST:" ++ t) = true.
Proof. unfold server_frame. rewrite startswith_app. now rewrite !orb_true_r. Qed.

Lemma server_frame_message (a c : string) :
  server_frame ("MESSAGE:" ++ a ++ ":" ++ c) = true.
Proof.
  unfold server_frame. rewrite startswith_app.
  replace (length (split ":" 2 ("MESSAGE:" ++ a ++ ":" ++ c))) with 3.
  - now rewrite !orb_true_r.
  - cbn -[cut]. change (a ++ ":" ++ c) with (a ++ String ":" c).
    cbn. destruct (cut_app_some ":" a c) as (x & y & ->). reflexivity.
Qed.

Section Catalogue.

Variable net : list event -> sock -> string -> bool.

Ltac catalogue_frame :=
  first [ reflexivity
        | apply server_frame_message
        | apply server_frame_status
        | apply server_frame_list
        | apply server_frame_error ].

Ltac emits_auto :=
  repeat first
    [ apply emits_ret | apply emits_gets | apply emits_raise
    | apply emits_with_lock | apply emits_bind | apply emits_try_except
    | apply emits_for_each | apply emits_close
    | apply emits_send; intros ?ok; simpl; catalogue_frame
    | apply emits_modify; reflexivity
    | exact I
    | match goal with
      | |- emits _ (if ?b then _ else _) => destruct b
      | |- emits _ (match ?x with _ => _ end) => destruct x
      | |- forall _ : _ * _, emits _ _ => intros [? ?]
      | |- forall _, emits _ _ => intro
      end ].

Lemma broadcast_status_catalogued (text : string) :
  emits sends_catalogued (broadcast_status net text).
Proof. unfold broadcast_status, try_pass. emits_auto. Qed.

Lemma broadcast_message_catalogued (sender content : string) :
  emits sends_catalogued (broadcast_message net sender content).
Proof. unfold broadcast_message, try_pass. cbv zeta. emits_auto. Qed.

Lemma send_message_catalogued (sender target content : string) :
  emits sends_catalogued (send_message net sender target content).
Proof.
  unfold send_message, try_pass. cbv zeta. emits_auto.
Qed.

Lemma send_client_list_catalogued (name : string) :
  emits sends_catalogued (send_client_list net name).
Proof. unfold send_client_list, try_pass. cbv zeta. emits_auto. Qed.

Lemma dispatch_catalogued (s : sock) (name message : string) :
  emits sends_catalogued (dispatch net s name message).
Proof.
  unfold dispatch.
  destruct (startswith "CHAT:" message).
  - destruct (split ":" 2 message) as [|p0 [|p1 [|p2 [|p3 ps]]]];
      first [apply send_message_catalogued | emits_auto].
  - destruct (String.eqb message "LIST"); [apply send_client_list_catalogued|].
    destruct (startswith "BROADCAST:" message);
      [apply broadcast_message_catalogued|emits_auto].
Qed.

Lemma receive_loop_catalogued (s : sock) (name : string) (input : list recv_result) :
  emits sends_catalogued (receive_loop net s name input).
Proof.
  induction input as [|[message|] rest IH]; simpl.
  - apply emits_ret.
  - destruct (String.eqb message ""); [apply emits_ret|].
    apply emits_bind; [apply dispatch_catalogued|auto].
  - apply emits_raise.
Qed.

Lemma remove_client_catalogued (name : string) :
  emits sends_catalogued (remove_client net name).
Proof.
  unfold remove_client, try_pass.
  apply emits_with_lock; [exact I|exact I|].
  apply emits_bind; [apply emits_gets|]. intros cs.
  destruct (Dict.get name cs); [|apply emits_ret].
  repeat (apply emits_bind; [|intro]); try apply broadcast_status_catalogued;
    emits_auto.
Qed.

Lemma register_catalogued (s : sock) (name : string) :
  emits sends_catalogued (register net s name).
Proof.
  unfold register.
  apply emits_bind.
  - apply emits_with_lock; [exact I|exact I|].
    apply emits_bind; [apply emits_gets|]. intros cs.
    destruct (Dict.mem name cs); emits_auto.
  - intros [|]; [|apply emits_ret].
    apply emits_bind; [emits_auto|]. intros _.
    apply emits_bind; [apply broadcast_status_catalogued|]. intros _.
    apply emits_ret.
Qed.

(** X13.  Whatever a connection sends and however the transport and the
    lock behave, every frame its handler writes, to any socket, belongs
    to the catalogue: [REGISTERED], [MESSAGE_SENT], or a text that starts
    with [ERROR:], [STATUS:], [CLIENT_LIST:], or with [MESSAGE:] and has
    a second [:]. *)
Theorem handler_writes_only_catalogue_frames (s : sock)
    (input : list recv_result) (w : world) :
  exists evs,
    trace (outcome_world (handle_client net s input w)) = (trace w ++ evs)%list
    /\ forall c data ok, In (EvSend c data ok) evs -> server_frame data = true.
Proof.
  assert (H : exists evs,
             trace (outcome_world (handle_client net s input w))
             = (trace w ++ evs)%list /\ Forall sends_catalogued evs).
  { unfold handle_client.
    assert (Hclean : forall n : option string,
               emits sends_catalogued
                 match n with
                 | Some name => if String.eqb name "" then ret tt
                                else remove_client net name
                 | None => ret tt
                 end).
    { intros [name|]; [|apply emits_ret].
      destruct (String.eqb name ""); [apply emits_ret|apply remove_client_catalogued]. }
    assert (Htry : exists e1,
               trace (outcome_world (snd (handle_client_try net s input w)))
               = (trace w ++ e1)%list /\ Forall sends_catalogued e1).
    { unfold handle_client_try.
      destruct input as [|[m|] rest]; simpl;
        try (exists []; rewrite app_nil_r; now split).
      destruct (String.eqb m ""); simpl;
        [exists []; rewrite app_nil_r; now split|].
      destruct (startswith "REGISTER:" m); simpl.
      - apply (emits_bind sends_catalogued);
          [apply register_catalogued|].
        intros [|]; [apply receive_loop_catalogued|apply emits_ret].
      - apply (emits_bind sends_catalogued); emits_auto. }
    destruct (handle_client_try net s input w) as [n o].
    destruct Htry as (e1 & Ht1 & HP1). simpl in Ht1.
    destruct o as [[] w1|w1|w1]; simpl in *.
    - destruct (Hclean n w1) as (e2 & Ht2 & HP2).
      exists (e1 ++ e2)%list. rewrite Ht2, Ht1, app_assoc.
      split; [reflexivity|]. apply Forall_app. now split.
    - destruct (Hclean n w1) as (e2 & Ht2 & HP2).
      exists (e1 ++ e2)%list. rewrite Ht2, Ht1, app_assoc.
      split; [reflexivity|]. apply Forall_app. now split.
    - exists e1. now split. }
  destruct H as (evs & Ht & HP). exists evs. split; [exact Ht|].
  intros c data ok Hin. rewrite Forall_forall in HP. exact (HP _ Hin).
Qed.

End Catalogue.

(** ** More on dictionaries and strings *)

Lemma startswith_inv (p s : string) :
  startswith p s = true -> exists r, s = p ++ r.
Proof.
  unfold startswith. revert s. induction p as [|a p IH]; intros s H.
  - exists s. reflexivity.
  - destruct s as [|b s]; simpl in H; [discriminate|].
    destruct (ascii_dec a b) as [->|]; [|discriminate].
    destruct (IH s H) as (r & ->). exists r. reflexivity.
Qed.

Lemma del_absent {V} (k : string) (d : list (string * V)) :
  Dict.get k d = None -> Dict.del k d = d.
Proof.
  induction d as [|[k' v'] d IH]; simpl; [reflexivity|].
  destruct (String.eqb k' k); [discriminate|].
  intros H. now rewrite (IH H).
Qed.

Lemma del_set {V} (k : string) (v : V) (d : list (string * V)) :
  Dict.del k (Dict.set k v d) = Dict.del k d.
Proof.
  induction d as [|[k' v'] d IH]; simpl.
  - now rewrite String.eqb_refl.
  - destruct (String.eqb k' k) eqn:E; simpl; rewrite E; [reflexivity|].
    now rewrite IH.
Qed.

Lemma get_set {V} (k n : string) (v : V) (d : list (string * V)) :
  Dict.get k (Dict.set n v d)
  = if String.eqb n k then Some v else Dict.get k d.
Proof.
  induction d as [|[k' v'] d IH]; simpl.
  - destruct (String.eqb n k); reflexivity.
  - destruct (String.eqb_spec k' n) as [->|Hn]; simpl.
    + destruct (String.eqb n k); reflexivity.
    + destruct (String.eqb_spec k' k) as [->|Hk].
      * apply String.eqb_neq in Hn. rewrite String.eqb_sym in Hn.
        now rewrite Hn.
      * exact IH.
Qed.

Lemma keys_del {V W} (k : string) (d : list (string * V)) (e : list (string * W)) :
  Dict.keys d = Dict.keys e -> Dict.keys (Dict.del k d) = Dict.keys (Dict.del k e).
Proof.
  unfold Dict.keys. revert e.
  induction d as [|[k1 v1] d IH]; intros [|[k2 v2] e]; simpl; try discriminate.
  - reflexivity.
  - intros H. inversion H; subst.
    destruct (String.eqb k2 k); simpl; [assumption|]. f_equal. auto.
Qed.

Lemma keys_set {V W} (k : string) (v : V) (x : W)
    (d : list (string * V)) (e : list (string * W)) :
  Dict.keys d = Dict.keys e ->
  Dict.keys (Dict.set k v d) = Dict.keys (Dict.set k x e).
Proof.
  unfold Dict.keys. revert e.
  induction d as [|[k1 v1] d IH]; intros [|[k2 v2] e]; simpl; try discriminate.
  - reflexivity.
  - intros H. inversion H; subst.
    destruct (String.eqb k2 k); simpl; f_equal; auto.
Qed.

Lemma values_del_subset {V} (k : string) (d : list (string * V)) (v : V) :
  In v (Dict.values (Dict.del k d)) -> In v (Dict.values d).
Proof.
  unfold Dict.values. induction d as [|[k' v'] d IH]; simpl; [tauto|].
  destruct (String.eqb k' k); simpl; tauto.
Qed.

Lemma values_del_nodup {V} (k : string) (d : list (string * V)) :
  NoDup (Dict.values d) -> NoDup (Dict.values (Dict.del k d)).
Proof.
  induction d as [|[k' v'] d IH]; simpl; [trivial|].
  intros H. inversion H as [|? ? Hx Hd]; subst.
  destruct (String.eqb k' k); simpl; [assumption|].
  constructor; [|auto].
  intros Hin. apply Hx. exact (values_del_subset k d v' Hin).
Qed.

Lemma values_app_nodup {V} (k : string) (v : V) (d : list (string * V)) :
  NoDup (Dict.values d) -> ~ In v (Dict.values d) ->
  NoDup (Dict.values (d ++ [(k, v)])).
Proof.
  unfold Dict.values. induction d as [|[k' v'] d IH]; simpl; intros Hnd Hin.
  - constructor; [tauto|constructor].
  - inversion Hnd as [|? ? Hx Hd]; subst. constructor.
    + rewrite map_app, in_app_iff. simpl. intros [H|[H|[]]]; [tauto|].
      apply Hin. now left.
    + apply IH; [assumption|tauto].
Qed.

(** ** A whole handler run *)

Section Lifecycle.

Variable net : list event -> sock -> string -> bool.

Ltac run_locked Hl :=
  unfold with_lock; rewrite Hl;
  unfold bind, gets, try_pass, try_except, sock_send, ret, modify;
  cbn [clients log set_lock].

(** A taken name, whatever becomes of the error reply: [register]
    returns [false] or raises, the tables and the lock as before. *)
Lemma register_taken_any (s holder : sock) (name : string) (w : world) :
  lock w = false ->
  Dict.get name (clients w) = Some holder ->
  exists w1,
    (register net s name w = Normal false w1 \/ register net s name w = Raised w1)
    /\ clients w1 = clients w
    /\ client_threads w1 = client_threads w
    /\ lock w1 = false.
Proof.
  intros Hl Hget.
  assert (H : exists w1 b,
             register net s name w = (if b : bool then Normal false w1 else Raised w1)
             /\ clients w1 = clients w
             /\ client_threads w1 = client_threads w
             /\ lock w1 = false).
  { unfold register. unfold bind at 1. run_locked Hl.
    unfold Dict.mem. rewrite Hget.
    destruct (send_ok net s "ERROR:Name already taken" _); cbn;
      [eexists; exists true|eexists; exists false];
      (split; [reflexivity|]); repeat split. }
  destruct H as (w1 & [|] & Hrun & H). 
  - exists w1. split; [now left|exact H].
  - exists w1. split; [now right|exact H].
Qed.

(** The [try] block on a [REGISTER] frame with a free name, both tables. *)
Lemma try_fresh_tables (s : sock) (rest : string) (input : list recv_result)
    (w : world) :
  lock w = false ->
  Dict.get (strip rest) (clients w) = None ->
  exists o,
    handle_client_try net s (Data ("REGISTER:" ++ rest) :: input) w
    = (Some (strip rest), o)
    /\ terminates o
    /\ clients (outcome_world o) = (clients w ++ [(strip rest, s)])%list
    /\ client_threads (outcome_world o) = Dict.set (strip rest) s (client_threads w)
    /\ lock (outcome_world o) = false.
Proof.
  intros Hl Hfree. eexists. split.
  - unfold handle_client_try. rewrite startswith_app.
    cbn -[register receive_loop strip]. reflexivity.
  - pose proof (register_fresh net s (strip rest) w Hl Hfree) as H. cbv zeta in H.
    unfold bind at 1 2 3 4.
    destruct (send_ok net s "REGISTERED" _).
    + destruct H as (evs & w' & -> & Hext & _).
      assert (Hl' : lock w' = false) by (rewrite Hext; reflexivity).
      destruct (receive_loop_frame net s (strip rest) input w' Hl') as (? & Hx & Ht).
      repeat split; [exact Ht| | |]; rewrite Hx; simpl; try reflexivity;
        rewrite Hext; reflexivity.
    + rewrite H. repeat split.
Qed.

(** What one connection does to the tables and to the lock, from its
    first [recv] to the end of its handler. *)
Lemma handle_client_effect (s : sock) (input : list recv_result) (w : world) :
  lock w = false ->
  let o := handle_client net s input w in
  match requested_name input with
  | None =>
      terminates o /\ lock (outcome_world o) = false
      /\ clients (outcome_world o) = clients w
      /\ client_threads (outcome_world o) = client_threads w
  | Some n =>
      if String.eqb n "" then
        terminates o /\ lock (outcome_world o) = false
        /\ if Dict.mem n (clients w)
           then clients (outcome_world o) = clients w
                /\ client_threads (outcome_world o) = client_threads w
           else clients (outcome_world o) = (clients w ++ [(n, s)])%list
                /\ client_threads (outcome_world o) = Dict.set n s (client_threads w)
      else
        ~ terminates o /\ lock (outcome_world o) = true
        /\ clients (outcome_world o) = Dict.del n (clients w)
        /\ client_threads (outcome_world o) = Dict.del n (client_threads w)
  end.
Proof.
  intros Hl o. subst o.
  destruct input as [|[m|] rest];
    try (unfold handle_client; simpl; auto; fail).
  unfold requested_name.
  destruct (startswith "REGISTER:" m) eqn:Hreg.
  - destruct (startswith_inv _ _ Hreg) as (r & ->).
    change (nth 1 (split ":" 1 ("REGISTER:" ++ r)) "") with r.
    destruct (Dict.get (strip r) (clients w)) as [holder|] eqn:Hget.
    + (* taken *)
      destruct (register_taken_any s holder (strip r) w Hl Hget)
        as (w1 & Hrun & Hc & Ht & Hl1).
      assert (Htry : exists o1,
                 handle_client_try net s (Data ("REGISTER:" ++ r) :: rest) w
                 = (Some (strip r), o1)
                 /\ terminates o1 /\ outcome_world o1 = w1).
      { unfold handle_client_try. rewrite startswith_app.
        cbn -[register receive_loop strip]. eexists. split; [reflexivity|].
        unfold bind. destruct Hrun as [-> | ->]; simpl; auto. }
      destruct Htry as (o1 & Htry & Hterm & How).
      unfold handle_client. rewrite Htry.
      destruct (String.eqb (strip r) "") eqn:Hname.
      * unfold Dict.mem. rewrite Hget.
        destruct o1 as [[] w2|w2|w2]; simpl in *; subst; auto; contradiction.
      * assert (Hb := remove_client_blocks net (strip r) holder w1 Hl1).
        rewrite Hc in Hb. specialize (Hb Hget).
        destruct o1 as [[] w2|w2|w2]; simpl in *;
          try contradiction; rewrite How, Hb; simpl; rewrite ?Hc, ?Ht; auto.
    + (* free *)
      destruct (try_fresh_tables s r rest w Hl Hget)
        as (o1 & Htry & Hterm & Hc & Ht & Hl1).
      unfold handle_client. rewrite Htry.
      destruct (String.eqb (strip r) "") eqn:Hname.
      * unfold Dict.mem. rewrite Hget.
        destruct o1 as [[] w2|w2|w2]; simpl in *; auto; contradiction.
      * assert (Hb : forall w2, outcome_world o1 = w2 ->
                       remove_client net (strip r) w2
                       = Blocked
                           (mkWorld (Dict.del (strip r) (clients w2))
                              (Dict.del (strip r) (client_threads w2)) true
                              (server_socket w2) (s :: closed w2)
                              (trace w2 ++ [EvAcquire; EvClose s]))).
        { intros w2 <-. apply remove_client_blocks; [exact Hl1|].
          rewrite Hc. now apply get_app_fresh. }
        destruct o1 as [[] w2|w2|w2]; simpl in *;
          try contradiction; rewrite (Hb w2 eq_refl); simpl;
          rewrite Hc, Ht, del_set, (del_app_fresh _ _ _ Hget),
            (del_absent _ _ Hget); auto.
  - unfold handle_client, handle_client_try. rewrite Hreg.
    destruct (String.eqb m ""); simpl; [auto|].
    unfold bind, sock_send, sock_close.
    destruct (send_ok net s "ERROR:Must register first" w); simpl; auto.
Qed.

End Lifecycle.

(** ** Properties of a handler run *)

Section HandlerRun.

Variable net : list event -> sock -> string -> bool.

(** X1.  One connection, from its first read to the end of its handler
    (lock free at the start), changes the registry in one of three ways
    only: not at all, when it asks for no name or for the empty name
    already taken; by adding the empty name for its socket, when that is
    free; by deleting the entry of the non-empty name it asks for, be
    that entry its own or another connection's.  The handler returns
    exactly when it asked for no name or for the empty one; otherwise it
    blocks holding the lock. *)
Theorem handler_registry_effect (s : sock) (input : list recv_result) (w : world) :
  lock w = false ->
  let o := handle_client net s input w in
  clients (outcome_world o)
  = match requested_name input with
    | None => clients w
    | Some n =>
        if String.eqb n "" then
          if Dict.mem n (clients w) then clients w
          else (clients w ++ [(n, s)])%list
        else Dict.del n (clients w)
    end
  /\ (terminates o <->
      requested_name input = None \/ requested_name input = Some "")
  /\ lock (outcome_world o) = negb match o with Blocked _ => false | _ => true end.
Proof.
  intros Hl o. pose proof (handle_client_effect net s input w Hl) as H.
  cbv zeta in H. fold o in H.
  destruct (requested_name input) as [n|].
  - destruct (String.eqb n "") eqn:Hn;
      [apply String.eqb_eq in Hn; subst n|apply String.eqb_neq in Hn].
    + destruct H as (Ht & Hlk & H).
      destruct (Dict.mem "" (clients w)); destruct H as [Hc _];
        (split; [exact Hc|]); (split; [split; auto|]);
        destruct o; simpl in *; auto; contradiction.
    + destruct H as (Ht & Hlk & Hc & _).
      split; [exact Hc|]. split.
      * split; [intros; contradiction|].
        intros [H|H]; [discriminate|]. inversion H. contradiction.
      * destruct o; simpl in *; auto; exfalso; apply Ht; exact I.
  - destruct H as (Ht & Hlk & Hc & _).
    split; [exact Hc|]. split; [split; auto|].
    destruct o; simpl in *; auto; contradiction.
Qed.

(** X2.  If no socket is registered under two names and the socket of a
    new connection is not registered, then after the handler of that
    connection has run (lock free at the start) still no socket is
    registered under two names. *)
Theorem sockets_registered_once (s : sock) (input : list recv_result) (w : world) :
  lock w = false ->
  NoDup (Dict.values (clients w)) ->
  ~ In s (Dict.values (clients w)) ->
  NoDup (Dict.values (clients (outcome_world (handle_client net s input w)))).
Proof.
  intros Hl Hnd Hs. pose proof (handle_client_effect net s input w Hl) as H.
  cbv zeta in H.
  destruct (requested_name input) as [n|].
  - destruct (String.eqb n "").
    + destruct H as (_ & _ & H).
      destruct (Dict.mem n (clients w)); destruct H as [-> _];
        [exact Hnd|now apply values_app_nodup].
    + destruct H as (_ & _ & -> & _). now apply values_del_nodup.
  - destruct H as (_ & _ & -> & _). exact Hnd.
Qed.

(** X3.  [self.client_threads] follows [self.clients]: if the two tables
    hold the same names in the same order before a connection's handler
    runs (lock free), they do so afterwards, however the handler ends. *)
Theorem thread_table_follows_registry (s : sock) (input : list recv_result)
    (w : world) :
  lock w = false ->
  tables_in_step w ->
  tables_in_step (outcome_world (handle_client net s input w)).
Proof.
  unfold tables_in_step.
  intros Hl Hk. pose proof (handle_client_effect net s input w Hl) as H.
  cbv zeta in H.
  destruct (requested_name input) as [n|].
  - destruct (String.eqb n "").
    + destruct H as (_ & _ & H).
      destruct (Dict.mem n (clients w)) eqn:Hm; destruct H as [-> ->];
        [exact Hk|].
      assert (Hfree : Dict.get n (clients w) = None).
      { unfold Dict.mem in Hm. now destruct (Dict.get n (clients w)). }
      rewrite <- (set_fresh n s (clients w) Hfree). now apply keys_set.
    + destruct H as (_ & _ & -> & ->). now apply keys_del.
  - destruct H as (_ & _ & -> & ->). exact Hk.
Qed.

(** X4.  No frames of an active client, in any number and of any
    content, change the registry or the thread table or close a socket:
    with the lock free, the receive loop returns or raises with the lock
    free again, having only appended to the trace. *)
Theorem active_client_cannot_change_registry (s : sock) (name : string)
    (input : list recv_result) (w : world) :
  lock w = false ->
  let o := receive_loop net s name input w in
  terminates o
  /\ clients (outcome_world o) = clients w
  /\ client_threads (outcome_world o) = client_threads w
  /\ closed (outcome_world o) = closed w
  /\ server_socket (outcome_world o) = server_socket w
  /\ lock (outcome_world o) = false.
Proof.
  intros Hl o. subst o.
  destruct (receive_loop_frame net s name input w Hl) as (evs & Hext & Ht).
  rewrite Hext. simpl. repeat split; assumption.
Qed.

End HandlerRun.

(** ** Edges of the handler and of the router *)

Lemma held_lock_blocks {A} (body : M A) (w : world) :
  lock w = true -> with_lock body w = Blocked w.
Proof. intros H. unfold with_lock. now rewrite H. Qed.

Lemma existsb_eqb_in (s : sock) (l : list sock) :
  In s l -> existsb (Nat.eqb s) l = true.
Proof.
  intros H. apply existsb_exists. exists s. split; [exact H|apply Nat.eqb_refl].
Qed.

(** [stop] with the lock free, in full. *)
Lemma stop_world (w : world) :
  lock w = false ->
  stop w
  = Normal tt
      (mkWorld [] [] false (server_socket w)
         (match server_socket w with Some l => [l] | None => [] end
          ++ rev (Dict.values (clients w)) ++ closed w)
         (trace w ++ [EvAcquire] ++ map EvClose (Dict.values (clients w))
            ++ [EvRelease]
            ++ match server_socket w with Some l => [EvClose l] | None => [] end)).
Proof.
  intros Hl. unfold stop. unfold bind at 1. unfold with_lock. rewrite Hl.
  unfold bind at 1, gets. cbn [clients log set_lock].
  unfold bind at 1. rewrite for_each_close.
  unfold bind, modify, ret, gets. cbn.
  destruct (server_socket w) as [l|];
    unfold try_pass, try_except, sock_close, log, set_closed, set_lock,
      set_clients, set_client_threads; cbn; f_equal; f_equal;
    rewrite <- ?app_assoc; cbn; rewrite ?app_nil_r; reflexivity.
Qed.

Ltac emits_by tac :=
  repeat first
    [ apply emits_ret | apply emits_gets | apply emits_raise
    | apply emits_with_lock | apply emits_bind | apply emits_try_except
    | apply emits_for_each | apply emits_close
    | apply emits_send; intros ?ok; simpl; tac
    | apply emits_modify; reflexivity
    | exact I
    | match goal with
      | |- emits _ (if ?b then _ else _) => destruct b
      | |- emits _ (match ?x with _ => _ end) => destruct x
      | |- forall _ : _ * _, emits _ _ => intros [? ?]
      | |- forall _, emits _ _ => intro
      end ].

Section Edges.

Variable net : list event -> sock -> string -> bool.

(** X5.  A connection whose first text is not a [REGISTER] frame is sent
    [ERROR:Must register first] and, if that write succeeds, closed; if
    the write fails the socket is left open.  Either way the handler
    returns at once, whatever follows in the stream, without taking the
    lock (so even while the lock is held) and without touching the
    tables. *)
Theorem unregistered_first_frame (s : sock) (m : string)
    (rest : list recv_result) (w : world) :
  m <> "" ->
  startswith "REGISTER:" m = false ->
  handle_client net s (Data m :: rest) w
  = Normal tt
      (if send_ok net s "ERROR:Must register first" w
       then mkWorld (clients w) (client_threads w) (lock w) (server_socket w)
                    (s :: closed w)
                    (trace w ++ [EvSend s "ERROR:Must register first" true; EvClose s])
       else mkWorld (clients w) (client_threads w) (lock w) (server_socket w)
                    (closed w)
                    (trace w ++ [EvSend s "ERROR:Must register first" false])).
Proof.
  intros Hm Hreg. apply String.eqb_neq in Hm.
  unfold handle_client, handle_client_try. rewrite Hm, Hreg.
  unfold bind, sock_send, sock_close.
  destruct (send_ok net s "ERROR:Must register first" w); cbn; f_equal;
    unfold log, set_closed; cbn; rewrite <- ?app_assoc; reflexivity.
Qed.

Lemma dispatch_broadcast (s : sock) (name content : string) (w : world) :
  dispatch net s name ("BROADCAST:" ++ content) w
  = broadcast_message net name content w.
Proof.
  unfold dispatch. rewrite startswith_app.
  change (startswith "CHAT:" ("BROADCAST:" ++ content)) with false.
  change (String.eqb ("BROADCAST:" ++ content) "LIST") with false.
  reflexivity.
Qed.

(** X6.  A frame [BROADCAST:<content>] of an active client is cut at its
    first [:] only: with the lock free, one write of
    [MESSAGE:<name>:<content>], the content whole with any [:] it has, is
    attempted for every registry entry whose name is not the sender's,
    in registry order, and the loop goes on. *)
Theorem broadcast_frame_routed (s : sock) (name content : string) (w : world) :
  lock w = false ->
  exists evs w',
    dispatch net s name ("BROADCAST:" ++ content) w = Normal tt w'
    /\ extends w false ([EvAcquire] ++ evs ++ [EvRelease]) w'
    /\ sends_only evs
    /\ attempts evs
       = map (fun '(_, sk) => (sk, "MESSAGE:" ++ name ++ ":" ++ content))
           (filter (fun '(n, _) => negb (String.eqb n name)) (clients w)).
Proof.
  intros Hl.
  destruct (broadcast_message_spec net name content w Hl)
    as (evs & w' & Hrun & Hext & Hatt & Hso).
  exists evs, w'. rewrite dispatch_broadcast. repeat split; assumption.
Qed.

(** X7.  [ERROR:Unknown command] is written exactly for the frames that
    neither start with [CHAT:] or [BROADCAST:] nor are [LIST] to the
    letter: whatever the transport and the lock do, a turn of the loop
    writes that reply if and only if the frame is none of the three, and
    then it is its only write and goes to the client's own socket. *)
Theorem unknown_command_exactly (s : sock) (name m : string) (w : world) :
  exists evs,
    trace (outcome_world (dispatch net s name m w)) = (trace w ++ evs)%list
    /\ ((exists c ok, In (EvSend c "ERROR:Unknown command" ok) evs)
        <-> (startswith "CHAT:" m = false /\ m <> "LIST"
             /\ startswith "BROADCAST:" m = false))
    /\ (startswith "CHAT:" m = false -> m <> "LIST" ->
        startswith "BROADCAST:" m = false ->
        exists ok, evs = [EvSend s "ERROR:Unknown command" ok]).
Proof.
  set (P := fun e => match e with
                     | EvSend _ d _ => d <> "ERROR:Unknown command"
                     | _ => True
                     end).
  assert (Hno : forall evs, Forall P evs ->
                  ~ exists c ok, In (EvSend c "ERROR:Unknown command" ok) evs).
  { intros evs HP (c & ok & Hin). rewrite Forall_forall in HP.
    apply (HP _ Hin). reflexivity. }
  assert (Hknown : forall c : M unit, emits P c ->
             (startswith "CHAT:" m = true \/ m = "LIST"
              \/ startswith "BROADCAST:" m = true) ->
             dispatch net s name m w = c w ->
             exists evs,
               trace (outcome_world (dispatch net s name m w)) = (trace w ++ evs)%list
               /\ ((exists c ok, In (EvSend c "ERROR:Unknown command" ok) evs)
                   <-> (startswith "CHAT:" m = false /\ m <> "LIST"
                        /\ startswith "BROADCAST:" m = false))
               /\ (startswith "CHAT:" m = false -> m <> "LIST" ->
                   startswith "BROADCAST:" m = false ->
                   exists ok, evs = [EvSend s "ERROR:Unknown command" ok])).
  { intros c Hc Hcmd Heq. destruct (Hc w) as (evs & Ht & HP).
    exists evs. rewrite Heq. split; [exact Ht|]. split.
    - split; [intros H; exfalso; exact (Hno evs HP H)|].
      intros (H1 & H2 & H3). destruct Hcmd as [H|[H|H]]; congruence.
    - intros H1 H2 H3. destruct Hcmd as [H|[H|H]]; congruence. }
  unfold dispatch in *.
  destruct (startswith "CHAT:" m) eqn:Hchat.
  - destruct (split ":" 2 m) as [|p0 [|p1 [|p2 [|p3 ps]]]];
      (eapply Hknown; [|now left|reflexivity]);
      unfold send_message, try_pass; cbv zeta;
      emits_by ltac:(intros Hd; simpl in Hd; discriminate Hd).
  - destruct (String.eqb_spec m "LIST") as [Hlist|Hlist].
    + eapply Hknown; [|right; now left|reflexivity].
      unfold send_client_list, try_pass; cbv zeta.
      emits_by ltac:(intros Hd; simpl in Hd; discriminate Hd).
    + destruct (startswith "BROADCAST:" m) eqn:Hb.
      * eapply Hknown; [|right; now right|reflexivity].
        unfold broadcast_message, try_pass; cbv zeta.
        emits_by ltac:(intros Hd; simpl in Hd; discriminate Hd).
      * unfold sock_send.
        destruct (send_ok net s "ERROR:Unknown command" w); simpl;
          eexists; (split; [reflexivity|]); (split; [|eauto]);
          (split; [auto|]); intros _; eexists; eexists; left; reflexivity.
Qed.

(** X8.  [remove_client] with the lock free returns if and only if the
    name is not registered, and then it has only taken and released the
    lock: nothing closed, nothing sent, the tables as they were. *)
Theorem remove_client_returns_iff_absent (name : string) (w : world) :
  lock w = false ->
  (terminates (remove_client net name w) <-> Dict.get name (clients w) = None)
  /\ (Dict.get name (clients w) = None ->
      exists w', remove_client net name w = Normal tt w'
                 /\ extends w false [EvAcquire; EvRelease] w').
Proof.
  intros Hl. destruct (Dict.get name (clients w)) as [s|] eqn:Hget.
  - rewrite (remove_client_blocks net name s w Hl Hget). simpl.
    split; [split; [contradiction|discriminate]|discriminate].
  - assert (H : exists w', remove_client net name w = Normal tt w'
                           /\ extends w false [EvAcquire; EvRelease] w').
    { unfold remove_client, with_lock. rewrite Hl.
      unfold bind, gets. cbn [clients log set_lock]. rewrite Hget.
      eexists. split; [reflexivity|]. world_eq. }
    split; [|auto]. destruct H as (w' & -> & _). simpl. tauto.
Qed.

(** X9.  Registration is insert-if-absent on the registry: when
    [register] is over (lock free at the call, whatever the transport
    does), a name that was taken is still bound to its holder and a free
    name is bound to the new socket, and every other name is bound as
    before. *)
Theorem register_is_insert_if_absent (s : sock) (name k : string) (w : world) :
  lock w = false ->
  Dict.get k (clients (outcome_world (register net s name w)))
  = match Dict.get name (clients w) with
    | Some _ => Dict.get k (clients w)
    | None => if String.eqb name k then Some s else Dict.get k (clients w)
    end.
Proof.
  intros Hl. destruct (Dict.get name (clients w)) as [holder|] eqn:Hget.
  - destruct (register_taken_any net s holder name w Hl Hget)
      as (w1 & [-> | ->] & Hc & _); simpl; now rewrite Hc.
  - pose proof (register_fresh net s name w Hl Hget) as H. cbv zeta in H.
    rewrite <- (get_set k name s (clients w)), (set_fresh name s _ Hget).
    destruct (send_ok net s "REGISTERED" _).
    + destruct H as (evs & w' & -> & Hext & _). simpl. now rewrite Hext.
    + now rewrite H.
Qed.

(** X10.  Once a client registered under a non-empty name has left, or
    has been cut off, the server is stuck: its handler blocks holding
    the lock, and from then on every [LIST], every [BROADCAST] frame,
    every [CHAT] frame with its two separators, every registration
    attempt and [stop] itself block for ever without writing anything. *)
Theorem server_hangs_after_a_client_leaves (s : sock) (rest : string)
    (input : list recv_result) (w : world) :
  lock w = false ->
  Dict.get (strip rest) (clients w) = None ->
  strip rest <> "" ->
  exists w',
    handle_client net s (Data ("REGISTER:" ++ rest) :: input) w = Blocked w'
    /\ (forall s2 n2, dispatch net s2 n2 "LIST" w' = Blocked w')
    /\ (forall s2 n2 c, dispatch net s2 n2 ("BROADCAST:" ++ c) w' = Blocked w')
    /\ (forall s2 n2 t c, lacks ":" t = true ->
          dispatch net s2 n2 ("CHAT:" ++ t ++ ":" ++ c) w' = Blocked w')
    /\ (forall s2 r2 input2,
          handle_client net s2 (Data ("REGISTER:" ++ r2) :: input2) w' = Blocked w')
    /\ stop w' = Blocked w'.
Proof.
  intros Hl Hfree Hname.
  destruct (registered_handler_never_returns net s rest input w Hl Hfree Hname)
    as (w' & Hrun & _ & Hheld & _).
  exists w'. split; [exact Hrun|]. repeat split.
  - intros s2 n2. change (dispatch net s2 n2 "LIST" w')
      with (send_client_list net n2 w').
    now apply held_lock_blocks.
  - intros s2 n2 c. rewrite dispatch_broadcast.
    now apply held_lock_blocks.
  - intros s2 n2 t c Ht. unfold dispatch. rewrite startswith_app.
    cbn -[cut send_message strip].
    change (t ++ ":" ++ c) with (t ++ String ":" c).
    cbn -[send_message strip]. rewrite (cut_lacks ":" t c Ht).
    now apply held_lock_blocks.
  - intros s2 r2 input2. unfold handle_client, handle_client_try.
    rewrite startswith_app. cbn -[register receive_loop strip remove_client].
    unfold bind at 1. unfold register. unfold bind at 1.
    now rewrite held_lock_blocks.
  - unfold stop. unfold bind at 1. now rewrite held_lock_blocks.
Qed.

(** X11.  [stop] can be run again, as happens on an interrupt, where
    both [start] and [main] call it: with the lock free both calls
    return, and the second finds the registry empty, closes no client
    socket and only closes the listening socket once more. *)
Theorem stop_is_repeatable (w : world) :
  lock w = false ->
  exists w1 w2,
    stop w = Normal tt w1
    /\ stop w1 = Normal tt w2
    /\ clients w2 = [] /\ client_threads w2 = [] /\ lock w2 = false
    /\ trace w2
       = (trace w1 ++ [EvAcquire; EvRelease]
            ++ match server_socket w with Some l => [EvClose l] | None => [] end)%list.
Proof.
  intros Hl. rewrite (stop_world w Hl). eexists. eexists.
  split; [reflexivity|]. rewrite stop_world by reflexivity.
  split; [reflexivity|]. cbn. repeat split.
Qed.

(** X12.  After [stop] (lock free at the call) every socket that was
    registered, and the listening socket, is closed, so that a write to
    it fails on any transport; and the registry being empty, a unicast,
    a broadcast and a list request then write nothing at all. *)
Theorem after_stop_nothing_is_written (w : world) :
  lock w = false ->
  exists w',
    stop w = Normal tt w'
    /\ (forall s data, In s (Dict.values (clients w)) \/ server_socket w = Some s ->
                       send_ok net s data w' = false)
    /\ (forall a t c, exists w2,
          send_message net a t c w' = Normal tt w2
          /\ extends w' false [EvAcquire; EvRelease] w2)
    /\ (forall a c, exists w2,
          broadcast_message net a c w' = Normal tt w2
          /\ extends w' false [EvAcquire; EvRelease] w2)
    /\ (forall a, exists w2,
          send_client_list net a w' = Normal tt w2
          /\ extends w' false [EvAcquire; EvRelease] w2).
Proof.
  intros Hl. rewrite (stop_world w Hl). eexists. split; [reflexivity|].
  split; [|split; [|split]].
  - intros s data Hs. unfold send_ok, is_closed. cbn [closed].
    rewrite existsb_eqb_in; [reflexivity|].
    rewrite !in_app_iff. destruct Hs as [Hs| ->].
    + right. left. now apply in_rev in Hs.
    + left. now left.
  - intros a t c. eexists. split; [reflexivity|]. world_eq.
  - intros a c. eexists. split; [reflexivity|]. world_eq.
  - intros a. eexists. split; [reflexivity|]. world_eq.
Qed.

End Edges.

(** * The console client against the server *)

Lemma lower_app (a b : string) :
  Console.lower (a ++ b) = Console.lower a ++ Console.lower b.
Proof. induction a as [|c a IH]; simpl; [reflexivity|now rewrite IH]. Qed.

Lemma lower_length (s : string) : String.length (Console.lower s) = String.length s.
Proof. induction s as [|c s IH]; simpl; [reflexivity|now rewrite IH]. Qed.

Lemma drop_app (a b : string) : Console.drop (String.length a) (a ++ b) = b.
Proof. induction a as [|c a IH]; simpl; [now destruct b|exact IH]. Qed.


Section ConsoleAndServer.

Variable send_error : list Console.cevent -> string -> option string.
Variable net : list event -> sock -> string -> bool.





(** X15.  What one user types is what the others read, for frames that
    fit one [recv(1024)] of their reader.  A line that, stripped, is not
    empty, is none of [quit], [help], [list] in any case, and does not
    begin with [send ] in any case, leaves a running console client as
    the frame [BROADCAST:<stripped line>]; that frame being at most 1024
    bytes, the server reads it whole and routes it as a broadcast of the
    whole stripped line, colons included; and a console client that
    reads the resulting [MESSAGE:<name>:<stripped line>], at most 1024
    bytes too and the sender's name having no [:], prints
    [[<name>]: <stripped line>]. *)
Theorem typed_line_is_broadcast_whole (line name : string) (c c2 : Console.client)
    (s : sock) (w : world) :
  Console.running c = true ->
  strip line <> "" ->
  Console.lower (strip line) <> "quit" ->
  Console.lower (strip line) <> "help" ->
  Console.lower (strip line) <> "list" ->
  startswith "send " (Console.lower (strip line)) = false ->
  send_error (Console.out c ++ [Console.Write Console.prompt])
             ("BROADCAST:" ++ strip line) = None ->
  lacks ":" name = true ->
  fits_one_read ("BROADCAST:" ++ strip line) ->
  fits_one_read ("MESSAGE:" ++ name ++ ":" ++ strip line) ->
  Console.turn send_error line c
  = (Console.Continue,
     Console.mkClient true
       (Console.out c ++ [Console.Write Console.prompt;
                          Console.Sent ("BROADCAST:" ++ strip line)]))
  /\ receive_loop net s name [Data ("BROADCAST:" ++ strip line)] w
     = broadcast_message net name (strip line) w
  /\ Console.handle_server_message ("MESSAGE:" ++ name ++ ":" ++ strip line) c2
     = Console.say (Console.Write Console.prompt)
         (Console.say
            (Console.Print (Console.nl ++ "[" ++ name ++ "]: " ++ strip line)) c2).
Proof.
  intros Hrun Hne Hq Hh Hl Hsend Herr Hname _ _.
  apply String.eqb_neq in Hne, Hq, Hh, Hl.
  split; [|split].
  - unfold Console.turn. cbv zeta. rewrite Hne, Hq, Hh, Hl, Hsend.
    unfold Console.broadcast_message, Console.send_or_complain, Console.say.
    cbn [Console.running Console.out]. rewrite Hrun. cbn [negb].
    rewrite Herr. f_equal. f_equal. now rewrite <- app_assoc.
  - change (receive_loop net s name [Data ("BROADCAST:" ++ strip line)] w)
      with ((dispatch net s name ("BROADCAST:" ++ strip line) ;; ret tt) w).
    unfold bind. rewrite dispatch_broadcast.
    now destruct (broadcast_message net name (strip line) w) as [[] ?|?|?].
  - unfold Console.handle_server_message. rewrite startswith_app.
    cbn -[cut Console.say Console.nl strip].
    change (name ++ ":" ++ strip line) with (name ++ String ":" (strip line)).
    cbn -[Console.say Console.nl strip].
    rewrite (cut_lacks ":" name (strip line) Hname). reflexivity.
Qed.

(** X16.  The [send] command of the console, for frames that fit one
    [recv(1024)] of the server.  A stripped line made of a
    five-character word that is [send ] in lower case and a rest that,
    stripped, is [<target> <message>] with no space in the target,
    leaves a running client as the frame [CHAT:<target>:<message>];
    and, that frame being at most 1024 bytes and the target having no
    [:], the server reads it whole and routes it as a unicast to the
    stripped target with the message whole. *)
Theorem send_command_reaches_target (line word rest target message name : string)
    (c : Console.client) (s : sock) (w : world) :
  Console.running c = true ->
  strip line = word ++ rest ->
  Console.lower word = "send " ->
  strip rest = target ++ " " ++ message ->
  lacks " " target = true ->
  lacks ":" target = true ->
  send_error (Console.out c ++ [Console.Write Console.prompt])
             ("CHAT:" ++ target ++ ":" ++ message) = None ->
  fits_one_read ("CHAT:" ++ target ++ ":" ++ message) ->
  Console.turn send_error line c
  = (Console.Continue,
     Console.mkClient true
       (Console.out c ++ [Console.Write Console.prompt;
                          Console.Sent ("CHAT:" ++ target ++ ":" ++ message)]))
  /\ receive_loop net s name [Data ("CHAT:" ++ target ++ ":" ++ message)] w
     = send_message net name (strip target) message w.
Proof.
  intros Hrun Hline Hword Hrest Hsp Hcol Herr _.
  assert (Hlen : String.length word = 5).
  { rewrite <- lower_length, Hword. reflexivity. }
  split.
  - unfold Console.turn. cbv zeta. rewrite Hline, lower_app, Hword.
    assert (Hne : String.eqb (word ++ rest) "" = false).
    { destruct word; [discriminate Hlen|reflexivity]. }
    rewrite Hne.
    change (String.eqb ("send " ++ Console.lower rest) "quit") with false.
    change (String.eqb ("send " ++ Console.lower rest) "help") with false.
    change (String.eqb ("send " ++ Console.lower rest) "list") with false.
    rewrite startswith_app. cbv iota.
    rewrite <- Hlen, drop_app, Hrest.
    change (target ++ " " ++ message) with (target ++ String " " message).
    cbn [split]. rewrite (cut_lacks " " target message Hsp).
    unfold Console.send_direct_message, Console.send_or_complain, Console.say.
    cbn [Console.running Console.out]. rewrite Hrun. cbn [negb].
    rewrite Herr. f_equal. f_equal. now rewrite <- app_assoc.
  - change (receive_loop net s name [Data ("CHAT:" ++ target ++ ":" ++ message)] w)
      with ((dispatch net s name ("CHAT:" ++ target ++ ":" ++ message) ;; ret tt) w).
    unfold bind, dispatch. rewrite startswith_app.
    cbn -[cut send_message strip].
    change (target ++ ":" ++ message) with (target ++ String ":" message).
    cbn -[send_message strip]. rewrite (cut_lacks ":" target message Hcol).
    now destruct (send_message net name (strip target) message w) as [[] ?|?|?].
Qed.

(** X17.  A [send] command that names a target but gives no message
    sends nothing: when the line, stripped, is a five-character word
    that is [send ] in lower case followed by a rest that, stripped, has
    no space, a usage line is printed and the loop goes on.  (The rest
    is never empty here: a stripped line does not end with the blank
    that ends the word.) *)
Theorem send_needs_a_message (line word rest : string) (c : Console.client) :
  strip line = word ++ rest ->
  Console.lower word = "send " ->
  lacks " " (strip rest) = true ->
  Console.turn send_error line c
  = (Console.Continue,
     Console.mkClient (Console.running c)
       (Console.out c ++ [Console.Write Console.prompt;
                          Console.Print "Usage: send <client_name> <message>"])).
Proof.
  intros Hline Hword Hsp.
  assert (Hlen : String.length word = 5).
  { rewrite <- lower_length, Hword. reflexivity. }
  unfold Console.turn. cbv zeta. rewrite Hline, lower_app, Hword.
  assert (Hne : String.eqb (word ++ rest) "" = false).
  { destruct word; [discriminate Hlen|reflexivity]. }
  rewrite Hne.
  change (String.eqb ("send " ++ Console.lower rest) "quit") with false.
  change (String.eqb ("send " ++ Console.lower rest) "help") with false.
  change (String.eqb ("send " ++ Console.lower rest) "list") with false.
  rewrite startswith_app. cbv iota.
  rewrite <- Hlen, drop_app. cbn [split].
  rewrite (cut_none " " (strip rest) Hsp).
  unfold Console.say. cbn. f_equal. f_equal. now rewrite <- app_assoc.
Qed.

End ConsoleAndServer.

(** * The further properties at concrete inputs *)

Lemma handler_registry_effect_witness :
  lock w_alice_bob = false
  /\ clients (outcome_world
                (handle_client reliable_net 3 [Data "REGISTER:bob"] w_alice_bob))
     = [("alice", 1)].
Proof.
  split; [reflexivity|].
  destruct (handler_registry_effect reliable_net 3 [Data "REGISTER:bob"]
              w_alice_bob eq_refl) as (Hc & _).
  exact Hc.
Defined.

Lemma sockets_registered_once_witness :
  lock w_alice_bob = false
  /\ NoDup (Dict.values (clients w_alice_bob))
  /\ ~ In 3 (Dict.values (clients w_alice_bob))
  /\ NoDup (Dict.values
              (clients (outcome_world
                          (handle_client reliable_net 3 [Data "REGISTER: "]
                             w_alice_bob)))).
Proof.
  assert (Hnd : NoDup (Dict.values (clients w_alice_bob))).
  { repeat constructor; simpl; intuition discriminate. }
  assert (Hs : ~ In 3 (Dict.values (clients w_alice_bob))).
  { simpl. intuition discriminate. }
  split; [reflexivity|]. split; [exact Hnd|]. split; [exact Hs|].
  exact (sockets_registered_once reliable_net 3 [Data "REGISTER: "] w_alice_bob
           eq_refl Hnd Hs).
Defined.

Lemma thread_table_follows_registry_witness :
  lock w_alice_bob = false
  /\ tables_in_step w_alice_bob
  /\ tables_in_step
       (outcome_world
          (handle_client reliable_net 3 [Data "REGISTER:alice"] w_alice_bob)).
Proof.
  split; [reflexivity|]. split; [reflexivity|].
  exact (thread_table_follows_registry reliable_net 3 [Data "REGISTER:alice"]
           w_alice_bob eq_refl eq_refl).
Defined.

Lemma active_client_cannot_change_registry_witness :
  lock w_alice_bob = false
  /\ clients (outcome_world
                (receive_loop (dead_peer 2) 1 "alice"
                   [Data "CHAT:bob:hi"; Data "LIST"; Data "BROADCAST:x"; RecvError]
                   w_alice_bob))
     = clients w_alice_bob.
Proof.
  split; [reflexivity|].
  destruct (active_client_cannot_change_registry (dead_peer 2) 1 "alice"
              [Data "CHAT:bob:hi"; Data "LIST"; Data "BROADCAST:x"; RecvError]
              w_alice_bob eq_refl) as (_ & Hc & _).
  exact Hc.
Defined.

Lemma unregistered_first_frame_witness :
  "LIST" <> ""
  /\ startswith "REGISTER:" "LIST" = false
  /\ handle_client reliable_net 3 [Data "LIST"; Data "REGISTER:carol"] w_alice_bob
     = Normal tt
         (mkWorld (clients w_alice_bob) (client_threads w_alice_bob) false (Some 0)
            [3] [EvSend 3 "ERROR:Must register first" true; EvClose 3]).
Proof.
  split; [discriminate|]. split; [reflexivity|].
  exact (unregistered_first_frame reliable_net 3 "LIST" [Data "REGISTER:carol"]
           w_alice_bob ltac:(discriminate) eq_refl).
Defined.

Lemma broadcast_frame_routed_witness :
  lock w_three = false
  /\ exists evs w',
       dispatch reliable_net 2 "bob" "BROADCAST:at 10:30" w_three = Normal tt w'
       /\ attempts evs = [(1, "MESSAGE:bob:at 10:30"); (3, "MESSAGE:bob:at 10:30")].
Proof.
  split; [reflexivity|].
  destruct (broadcast_frame_routed reliable_net 2 "bob" "at 10:30" w_three eq_refl)
    as (evs & w' & Hrun & _ & _ & Hatt).
  exists evs, w'. split; [exact Hrun|exact Hatt].
Defined.

Lemma remove_client_returns_iff_absent_witness :
  lock w_alice = false
  /\ (terminates (remove_client reliable_net "bob" w_alice)
      <-> Dict.get "bob" (clients w_alice) = None).
Proof.
  split; [reflexivity|].
  exact (proj1 (remove_client_returns_iff_absent reliable_net "bob" w_alice eq_refl)).
Defined.

Lemma register_is_insert_if_absent_witness :
  lock w_alice = false
  /\ Dict.get "bob"
       (clients (outcome_world (register (dead_peer 2) 2 "bob" w_alice)))
     = Some 2.
Proof.
  split; [reflexivity|].
  exact (register_is_insert_if_absent (dead_peer 2) 2 "bob" "bob" w_alice eq_refl).
Defined.

Lemma server_hangs_after_a_client_leaves_witness :
  lock w_bob = false
  /\ Dict.get (strip "alice") (clients w_bob) = None
  /\ strip "alice" <> ""
  /\ exists w',
       handle_client reliable_net 1 [Data "REGISTER:alice"] w_bob = Blocked w'
       /\ dispatch reliable_net 2 "bob" "LIST" w' = Blocked w'
       /\ stop w' = Blocked w'.
Proof.
  split; [reflexivity|]. split; [reflexivity|]. split; [discriminate|].
  destruct (server_hangs_after_a_client_leaves reliable_net 1 "alice" [] w_bob
              eq_refl eq_refl ltac:(discriminate))
    as (w' & Hrun & Hlist & _ & _ & _ & Hstop).
  exists w'. split; [exact Hrun|]. split; [apply Hlist|exact Hstop].
Defined.

Lemma stop_is_repeatable_witness :
  lock w_alice_bob = false
  /\ exists w1 w2,
       stop w_alice_bob = Normal tt w1 /\ stop w1 = Normal tt w2 /\ clients w2 = [].
Proof.
  split; [reflexivity|].
  destruct (stop_is_repeatable w_alice_bob eq_refl)
    as (w1 & w2 & H1 & H2 & Hc & _).
  exists w1, w2. split; [exact H1|]. split; [exact H2|exact Hc].
Defined.

Lemma after_stop_nothing_is_written_witness :
  lock w_alice_bob = false
  /\ exists w',
       stop w_alice_bob = Normal tt w'
       /\ send_ok reliable_net 2 "MESSAGE:alice:hi" w' = false.
Proof.
  split; [reflexivity|].
  destruct (after_stop_nothing_is_written reliable_net w_alice_bob eq_refl)
    as (w' & Hrun & Hdead & _).
  exists w'. split; [exact Hrun|].
  apply Hdead. left. simpl. auto.
Defined.


Lemma typed_line_is_broadcast_whole_witness :
  Console.running Console.fresh_client = true
  /\ strip "  lunch at 12:30?  " <> ""
  /\ Console.lower (strip "  lunch at 12:30?  ") <> "quit"
  /\ Console.lower (strip "  lunch at 12:30?  ") <> "help"
  /\ Console.lower (strip "  lunch at 12:30?  ") <> "list"
  /\ startswith "send " (Console.lower (strip "  lunch at 12:30?  ")) = false
  /\ Console.no_send_error
       (Console.out Console.fresh_client ++ [Console.Write Console.prompt])
       ("BROADCAST:" ++ strip "  lunch at 12:30?  ") = None
  /\ lacks ":" "alice" = true
  /\ fits_one_read ("BROADCAST:" ++ strip "  lunch at 12:30?  ")
  /\ fits_one_read ("MESSAGE:" ++ "alice" ++ ":" ++ strip "  lunch at 12:30?  ")
  /\ Console.turn Console.no_send_error "  lunch at 12:30?  " Console.fresh_client
     = (Console.Continue,
        Console.mkClient true
          [Console.Write "Your message: "; Console.Sent "BROADCAST:lunch at 12:30?"]).
Proof.
  assert (H1 : fits_one_read ("BROADCAST:" ++ strip "  lunch at 12:30?  ")).
  { unfold fits_one_read. simpl. lia. }
  assert (H2 : fits_one_read ("MESSAGE:" ++ "alice" ++ ":" ++ strip "  lunch at 12:30?  ")).
  { unfold fits_one_read. simpl. lia. }
  split; [reflexivity|]. do 4 (split; [discriminate|]).
  do 3 (split; [reflexivity|]). split; [exact H1|]. split; [exact H2|].
  exact (proj1 (typed_line_is_broadcast_whole Console.no_send_error reliable_net
                  "  lunch at 12:30?  " "alice" Console.fresh_client
                  Console.fresh_client 1 w_alice_bob
                  eq_refl ltac:(discriminate) ltac:(discriminate)
                  ltac:(discriminate) ltac:(discriminate)
                  eq_refl eq_refl eq_refl H1 H2)).
Defined.

Lemma send_command_reaches_target_witness :
  Console.running Console.fresh_client = true
  /\ strip " Send  bob see you: soon " = "Send " ++ " bob see you: soon"
  /\ Console.lower "Send " = "send "
  /\ strip " bob see you: soon" = "bob" ++ " " ++ "see you: soon"
  /\ lacks " " "bob" = true
  /\ lacks ":" "bob" = true
  /\ Console.no_send_error
       (Console.out Console.fresh_client ++ [Console.Write Console.prompt])
       ("CHAT:" ++ "bob" ++ ":" ++ "see you: soon") = None
  /\ fits_one_read ("CHAT:" ++ "bob" ++ ":" ++ "see you: soon")
  /\ Console.turn Console.no_send_error " Send  bob see you: soon "
       Console.fresh_client
     = (Console.Continue,
        Console.mkClient true
          [Console.Write "Your message: "; Console.Sent "CHAT:bob:see you: soon"]).
Proof.
  assert (H1 : fits_one_read ("CHAT:" ++ "bob" ++ ":" ++ "see you: soon")).
  { unfold fits_one_read. simpl. lia. }
  do 7 (split; [reflexivity|]). split; [exact H1|].
  exact (proj1 (send_command_reaches_target Console.no_send_error reliable_net
                  " Send  bob see you: soon " "Send " " bob see you: soon"
                  "bob" "see you: soon" "alice" Console.fresh_client 1 w_alice_bob
                  eq_refl eq_refl eq_refl eq_refl eq_refl eq_refl eq_refl H1)).
Defined.

Lemma send_needs_a_message_witness :
  strip "send bob" = "send " ++ "bob"
  /\ Console.lower "send " = "send "
  /\ lacks " " (strip "bob") = true
  /\ Console.turn Console.no_send_error "send bob" Console.fresh_client
     = (Console.Continue,
        Console.mkClient true
          [Console.Write "Your message: ";
           Console.Print "Usage: send <client_name> <message>"]).
Proof.
  do 3 (split; [reflexivity|]).
  exact (send_needs_a_message Console.no_send_error "send bob" "send " "bob"
           Console.fresh_client eq_refl eq_refl eq_refl).
Defined.
